(** * Dia: the rectangular [Element] (lib/element.c)

    A shallow embedding of the geometry, resize, connection-point, undo and
    load routines of [lib/element.c], with the properties that the
    specification of the element core states about them.

    Numbers.  The C type [real] is [double].  It is modelled by the exact
    rationals [Q]: every finite double is a rational, and [+], [-], [*], [/]
    and the comparisons are the exact ones.  Rounding, infinities and NaN are
    outside the model.  A C [int] is a [Z].

    Memory.  A function that works on one [Element *] takes the element and
    returns the updated element.  The undo record keeps a pointer to its
    element, so the undo routines work on a store of elements indexed by
    address.  An array is a list.  The eight handle slots are part of the
    element ([Element_wf]); the connection points are the caller's array,
    and an access outside it, which C leaves undefined, makes the model
    return [None]. *)

From Stdlib Require Import ZArith QArith Lqa Lia.
From stdpp Require Import base option list gmap strings.

Local Open Scope Q_scope.

(** ** Data model *)

Module Point.
Record t : Type := mk { x : Q; y : Q }.
End Point.
Abbreviation Point := Point.t.

(** [point_sub (&p, &q)]: [p -= q], componentwise. *)
Definition point_sub (p q : Point) : Point :=
  Point.mk (Point.x p - Point.x q) (Point.y p - Point.y q).

Module DiaRectangle.
Record t : Type := mk { left : Q; top : Q; right : Q; bottom : Q }.
End DiaRectangle.
Abbreviation DiaRectangle := DiaRectangle.t.

(** The handle identifiers, as the two [switch] statements of the file name
    them. *)
Inductive HandleId : Type :=
  | HANDLE_RESIZE_NW
  | HANDLE_RESIZE_N
  | HANDLE_RESIZE_NE
  | HANDLE_RESIZE_W
  | HANDLE_RESIZE_E
  | HANDLE_RESIZE_SW
  | HANDLE_RESIZE_S
  | HANDLE_RESIZE_SE
  | HANDLE_MOVE_STARTPOINT
  | HANDLE_MOVE_ENDPOINT
  | HANDLE_CUSTOM1
  | HANDLE_CUSTOM2
  | HANDLE_CUSTOM3
  | HANDLE_CUSTOM4
  | HANDLE_CUSTOM5
  | HANDLE_CUSTOM6
  | HANDLE_CUSTOM7
  | HANDLE_CUSTOM8
  | HANDLE_CUSTOM9.

(** Modelled from the spec: the integer value of each [HandleId] enumerator
    (the enumeration is declared in a header that is not part of the
    sources).  The spec fixes that [RESIZE_NW .. RESIZE_SE] is a range that
    holds the eight resize ids, in the order NW, N, NE, W, E, SW, S, SE, and
    that the endpoint and custom ids lie outside it. *)
Definition HandleId_value (id : HandleId) : Z :=
  match id with
  | HANDLE_RESIZE_NW => 0
  | HANDLE_RESIZE_N => 1
  | HANDLE_RESIZE_NE => 2
  | HANDLE_RESIZE_W => 3
  | HANDLE_RESIZE_E => 4
  | HANDLE_RESIZE_SW => 5
  | HANDLE_RESIZE_S => 6
  | HANDLE_RESIZE_SE => 7
  | HANDLE_MOVE_STARTPOINT => 8
  | HANDLE_MOVE_ENDPOINT => 9
  | HANDLE_CUSTOM1 => 200
  | HANDLE_CUSTOM2 => 201
  | HANDLE_CUSTOM3 => 202
  | HANDLE_CUSTOM4 => 203
  | HANDLE_CUSTOM5 => 204
  | HANDLE_CUSTOM6 => 205
  | HANDLE_CUSTOM7 => 206
  | HANDLE_CUSTOM8 => 207
  | HANDLE_CUSTOM9 => 208
  end%Z.

(** [a >= b] and [a <= b] on handle ids, as C compares enumerators. *)
Definition HandleId_ge (a b : HandleId) : bool :=
  (HandleId_value b <=? HandleId_value a)%Z.
Definition HandleId_le (a b : HandleId) : bool :=
  (HandleId_value a <=? HandleId_value b)%Z.

(** The ids that pass both range guards of the resize routines. *)
Definition is_resize_id (id : HandleId) : bool :=
  HandleId_ge id HANDLE_RESIZE_NW && HandleId_le id HANDLE_RESIZE_SE.

(** A handle slot.  [type] and [connect_type] are C enumerations, kept as
    their integer values; [connected_to] is a pointer, [None] for [NULL]. *)
Module Handle.
Record t : Type := mk {
  id : HandleId;
  pos : Point;
  type : Z;
  connect_type : Z;
  connected_to : option nat
}.
Definition set_id (v : HandleId) (h : t) : t :=
  mk v (pos h) (type h) (connect_type h) (connected_to h).
Definition set_pos_x (v : Q) (h : t) : t :=
  mk (id h) (Point.mk v (Point.y (pos h))) (type h) (connect_type h)
     (connected_to h).
Definition set_pos_y (v : Q) (h : t) : t :=
  mk (id h) (Point.mk (Point.x (pos h)) v) (type h) (connect_type h)
     (connected_to h).
End Handle.
Abbreviation Handle := Handle.t.

(** Modelled from the spec: the direction bits of a connection point and
    the flag value that marks the main point (macros of a header that is not
    part of the sources).  The spec makes a direction mask a subset of
    {N, E, S, W}, with [ALL] and [NONE] the full and the empty subset. *)
Definition DIR_NONE : Z := 0.
Definition DIR_NORTH : Z := 1.
Definition DIR_EAST : Z := 2.
Definition DIR_SOUTH : Z := 4.
Definition DIR_WEST : Z := 8.
Definition DIR_ALL : Z :=
  Z.lor (Z.lor DIR_NORTH DIR_SOUTH) (Z.lor DIR_EAST DIR_WEST).
Definition CP_FLAGS_MAIN : Z := 3.

Module ConnectionPoint.
Record t : Type := mk { pos : Point; directions : Z; flags : Z }.
Definition set_pos (v : Point) (c : t) : t := mk v (directions c) (flags c).
Definition set_pos_x (v : Q) (c : t) : t :=
  mk (Point.mk v (Point.y (pos c))) (directions c) (flags c).
Definition set_pos_y (v : Q) (c : t) : t :=
  mk (Point.mk (Point.x (pos c)) v) (directions c) (flags c).
Definition set_directions (v : Z) (c : t) : t := mk (pos c) v (flags c).
End ConnectionPoint.
Abbreviation ConnectionPoint := ConnectionPoint.t.

(** The part of the base object that this file reads or writes. *)
Module DiaObject.
Record t : Type := mk {
  position : Point;
  bounding_box : DiaRectangle;
  num_connections : Z
}.
Definition set_position (v : Point) (o : t) : t :=
  mk v (bounding_box o) (num_connections o).
End DiaObject.
Abbreviation DiaObject := DiaObject.t.

Module Element.
Record t : Type := mk {
  object : DiaObject;
  resize_handles : list Handle;
  corner : Point;
  width : Q;
  height : Q
}.
Definition set_object (v : DiaObject) (e : t) : t :=
  mk v (resize_handles e) (corner e) (width e) (height e).
Definition set_resize_handles (v : list Handle) (e : t) : t :=
  mk (object e) v (corner e) (width e) (height e).
Definition set_corner (v : Point) (e : t) : t :=
  mk (object e) (resize_handles e) v (width e) (height e).
Definition set_corner_x (v : Q) (e : t) : t :=
  set_corner (Point.mk v (Point.y (corner e))) e.
Definition set_corner_y (v : Q) (e : t) : t :=
  set_corner (Point.mk (Point.x (corner e)) v) e.
Definition set_width (v : Q) (e : t) : t :=
  mk (object e) (resize_handles e) (corner e) v (height e).
Definition set_height (v : Q) (e : t) : t :=
  mk (object e) (resize_handles e) (corner e) (width e) v.
End Element.
Abbreviation Element := Element.t.

(** The undo record: a pointer to the element and a stored pose. *)
Module DiaElementObjectChange.
Record t : Type := mk {
  element : nat;
  corner : Point;
  width : Q;
  height : Q
}.
End DiaElementObjectChange.
Abbreviation DiaElementObjectChange := DiaElementObjectChange.t.
Abbreviation DiaObjectChange := DiaElementObjectChange.t.

(** ** element_move_handle *)

(** [if (c) s] on the element. *)
Definition when {P R : Prop} (c : {P} + {R}) (s : Element -> Element)
    (elem : Element) : Element :=
  if c then s elem else elem.

(** The result is the returned pointer ([None] for [NULL]) and the element
    after the call.  The two [g_return_val_if_fail] guards return [NULL]
    before anything is written; so does the [default] branch, after its
    warning.  [p = *to - elem->corner] is taken once, on entry; the guards
    read [to] and the element as it is when they run.  The arguments [cp],
    [reason] and [modifiers] are never read and are left out. *)
Definition element_move_handle (elem : Element) (id : HandleId) (to : Point)
    : option DiaObjectChange * Element :=
  if negb (HandleId_ge id HANDLE_RESIZE_NW) then (None, elem)
  else if negb (HandleId_le id HANDLE_RESIZE_SE) then (None, elem)
  else
    let p := point_sub to (Element.corner elem) in
    let west (e : Element) :=
      when (Qlt_le_dec (Point.x to) (Point.x (Element.corner e) + Element.width e))
        (fun e =>
           let e := Element.set_corner_x (Point.x (Element.corner e) + Point.x p) e in
           Element.set_width (Element.width e - Point.x p) e) e in
    let north (e : Element) :=
      when (Qlt_le_dec (Point.y to) (Point.y (Element.corner e) + Element.height e))
        (fun e =>
           let e := Element.set_corner_y (Point.y (Element.corner e) + Point.y p) e in
           Element.set_height (Element.height e - Point.y p) e) e in
    let east (e : Element) :=
      when (Qlt_le_dec 0 (Point.x p)) (Element.set_width (Point.x p)) e in
    let south (e : Element) :=
      when (Qlt_le_dec 0 (Point.y p)) (Element.set_height (Point.y p)) e in
    match id with
    | HANDLE_RESIZE_NW => (None, north (west elem))
    | HANDLE_RESIZE_N => (None, north elem)
    | HANDLE_RESIZE_NE => (None, north (east elem))
    | HANDLE_RESIZE_W => (None, west elem)
    | HANDLE_RESIZE_E => (None, east elem)
    | HANDLE_RESIZE_SW => (None, south (west elem))
    | HANDLE_RESIZE_S => (None, south elem)
    | HANDLE_RESIZE_SE => (None, south (east elem))
    | _ => (None, elem)
    end.

(** ** element_move_handle_aspect *)

(** The locals [new_width], [new_height], [move_x], [move_y] start at 0; a
    [case] overwrites those it assigns and leaves the others.  The function
    returns nothing: the result is the element after the call. *)
Definition element_move_handle_aspect (elem : Element) (id : HandleId)
    (to : Point) (aspect_ratio : Q) : Element :=
  let move_x := 0 in
  let move_y := 0 in
  if negb (HandleId_ge id HANDLE_RESIZE_NW) then elem
  else if negb (HandleId_le id HANDLE_RESIZE_SE) then elem
  else
    let p := point_sub to (Element.corner elem) in
    let width := Element.width elem in
    let height := Element.height elem in
    let new_width := 0 in
    let new_height := 0 in
    let '(new_width, new_height, move_x, move_y) :=
      match id with
      | HANDLE_RESIZE_NW => (width - Point.x p, height - Point.y p, 1, 1)
      | HANDLE_RESIZE_N => (new_width, height - Point.y p, 1 # 2, 1)
      | HANDLE_RESIZE_NE => (Point.x p, height - Point.y p, 0, 1)
      | HANDLE_RESIZE_W => (width - Point.x p, new_height, 1, 1 # 2)
      | HANDLE_RESIZE_E => (Point.x p, new_height, 0, 1 # 2)
      | HANDLE_RESIZE_SW => (width - Point.x p, Point.y p, 1, 0)
      | HANDLE_RESIZE_S => (new_width, Point.y p, 1 # 2, 0)
      | HANDLE_RESIZE_SE => (Point.x p, Point.y p, 0, 0)
      | _ => (new_width, new_height, move_x, move_y)
      end in
    let '(new_width, new_height) :=
      if Qlt_le_dec (new_height * aspect_ratio) new_width
      then (new_width, new_width / aspect_ratio)
      else (new_height * aspect_ratio, new_height) in
    let '(new_width, new_height) :=
      if Qlt_le_dec new_width 0 then (0, 0)
      else if Qlt_le_dec new_height 0 then (0, 0)
      else (new_width, new_height) in
    let elem :=
      Element.set_corner_x
        (Point.x (Element.corner elem) - (new_width - width) * move_x) elem in
    let elem :=
      Element.set_corner_y
        (Point.y (Element.corner elem) - (new_height - height) * move_y) elem in
    let elem := Element.set_width new_width elem in
    Element.set_height new_height elem.

(** ** Handles and connection points *)

(** [a[i].field = v] on an array of the element itself, which has the slot. *)
Definition set_handle (i : nat) (f : Handle -> Handle) (elem : Element)
    : Element :=
  Element.set_resize_handles (alter f i (Element.resize_handles elem)) elem.

(** An element as the C type has it: eight resize handles. *)
Definition Element_wf (elem : Element) : Prop :=
  length (Element.resize_handles elem) = 8%nat.

Definition element_update_handles (elem : Element) : Element :=
  let corner := Element.corner elem in
  let elem := set_handle 0 (Handle.set_id HANDLE_RESIZE_NW) elem in
  let elem := set_handle 0 (Handle.set_pos_x (Point.x corner)) elem in
  let elem := set_handle 0 (Handle.set_pos_y (Point.y corner)) elem in

  let elem := set_handle 1 (Handle.set_id HANDLE_RESIZE_N) elem in
  let elem := set_handle 1 (Handle.set_pos_x (Point.x corner + Element.width elem / 2)) elem in
  let elem := set_handle 1 (Handle.set_pos_y (Point.y corner)) elem in

  let elem := set_handle 2 (Handle.set_id HANDLE_RESIZE_NE) elem in
  let elem := set_handle 2 (Handle.set_pos_x (Point.x corner + Element.width elem)) elem in
  let elem := set_handle 2 (Handle.set_pos_y (Point.y corner)) elem in

  let elem := set_handle 3 (Handle.set_id HANDLE_RESIZE_W) elem in
  let elem := set_handle 3 (Handle.set_pos_x (Point.x corner)) elem in
  let elem := set_handle 3 (Handle.set_pos_y (Point.y corner + Element.height elem / 2)) elem in

  let elem := set_handle 4 (Handle.set_id HANDLE_RESIZE_E) elem in
  let elem := set_handle 4 (Handle.set_pos_x (Point.x corner + Element.width elem)) elem in
  let elem := set_handle 4 (Handle.set_pos_y (Point.y corner + Element.height elem / 2)) elem in

  let elem := set_handle 5 (Handle.set_id HANDLE_RESIZE_SW) elem in
  let elem := set_handle 5 (Handle.set_pos_x (Point.x corner)) elem in
  let elem := set_handle 5 (Handle.set_pos_y (Point.y corner + Element.height elem)) elem in

  let elem := set_handle 6 (Handle.set_id HANDLE_RESIZE_S) elem in
  let elem := set_handle 6 (Handle.set_pos_x (Point.x corner + Element.width elem / 2)) elem in
  let elem := set_handle 6 (Handle.set_pos_y (Point.y corner + Element.height elem)) elem in

  let elem := set_handle 7 (Handle.set_id HANDLE_RESIZE_SE) elem in
  let elem := set_handle 7 (Handle.set_pos_x (Point.x corner + Element.width elem)) elem in
  set_handle 7 (Handle.set_pos_y (Point.y corner + Element.height elem)) elem.

(** [cps[i].field = v] on the caller's array: [None] when the array has no
    slot [i]. *)
Definition set_cp (i : nat) (f : ConnectionPoint -> ConnectionPoint)
    (cps : list ConnectionPoint) : option (list ConnectionPoint) :=
  cp ← cps !! i; Some (<[i := f cp]> cps).

(** [g_assert] aborts the program when its condition fails: [None]. *)
Definition element_update_connections_rectangle (elem : Element)
    (cps : list ConnectionPoint) : option (list ConnectionPoint) :=
  let corner := Element.corner elem in
  let width := Element.width elem in
  let height := Element.height elem in
  cps ← set_cp 0 (ConnectionPoint.set_pos corner) cps;
  cps ← set_cp 1 (ConnectionPoint.set_pos_x (Point.x corner + width / 2)) cps;
  cps ← set_cp 1 (ConnectionPoint.set_pos_y (Point.y corner)) cps;
  cps ← set_cp 2 (ConnectionPoint.set_pos_x (Point.x corner + width)) cps;
  cps ← set_cp 2 (ConnectionPoint.set_pos_y (Point.y corner)) cps;
  cps ← set_cp 3 (ConnectionPoint.set_pos_x (Point.x corner)) cps;
  cps ← set_cp 3 (ConnectionPoint.set_pos_y (Point.y corner + height / 2)) cps;
  cps ← set_cp 4 (ConnectionPoint.set_pos_x (Point.x corner + width)) cps;
  cps ← set_cp 4 (ConnectionPoint.set_pos_y (Point.y corner + height / 2)) cps;
  cps ← set_cp 5 (ConnectionPoint.set_pos_x (Point.x corner)) cps;
  cps ← set_cp 5 (ConnectionPoint.set_pos_y (Point.y corner + height)) cps;
  cps ← set_cp 6 (ConnectionPoint.set_pos_x (Point.x corner + width / 2)) cps;
  cps ← set_cp 6 (ConnectionPoint.set_pos_y (Point.y corner + height)) cps;
  cps ← set_cp 7 (ConnectionPoint.set_pos_x (Point.x corner + width)) cps;
  cps ← set_cp 7 (ConnectionPoint.set_pos_y (Point.y corner + height)) cps;
  if negb (9 <=? DiaObject.num_connections (Element.object elem))%Z then None
  else
  cps ← set_cp 8 (ConnectionPoint.set_pos_x (Point.x corner + width / 2)) cps;
  cps ← set_cp 8 (ConnectionPoint.set_pos_y (Point.y corner + height / 2)) cps;

  cps ← set_cp 0 (ConnectionPoint.set_directions (Z.lor DIR_NORTH DIR_WEST)) cps;
  cps ← set_cp 1 (ConnectionPoint.set_directions DIR_NORTH) cps;
  cps ← set_cp 2 (ConnectionPoint.set_directions (Z.lor DIR_NORTH DIR_EAST)) cps;
  cps ← set_cp 3 (ConnectionPoint.set_directions DIR_WEST) cps;
  cps ← set_cp 4 (ConnectionPoint.set_directions DIR_EAST) cps;
  cps ← set_cp 5 (ConnectionPoint.set_directions (Z.lor DIR_SOUTH DIR_WEST)) cps;
  cps ← set_cp 6 (ConnectionPoint.set_directions DIR_SOUTH) cps;
  cps ← set_cp 7 (ConnectionPoint.set_directions (Z.lor DIR_SOUTH DIR_EAST)) cps;
  set_cp 8 (ConnectionPoint.set_directions DIR_ALL) cps.

(** The body of the loop of [element_update_connections_directions], on
    [cps[i]]. *)
Definition update_directions_body (center : Point) (cp : ConnectionPoint)
    : ConnectionPoint :=
  let or_in (d : Z) (cp : ConnectionPoint) :=
    ConnectionPoint.set_directions (Z.lor (ConnectionPoint.directions cp) d) cp in
  let cp := ConnectionPoint.set_directions DIR_NONE cp in
  let cp :=
    if Qlt_le_dec (Point.x center) (Point.x (ConnectionPoint.pos cp))
    then or_in DIR_EAST cp
    else if Qlt_le_dec (Point.x (ConnectionPoint.pos cp)) (Point.x center)
    then or_in DIR_WEST cp
    else cp in
  let cp :=
    if Qlt_le_dec (Point.y center) (Point.y (ConnectionPoint.pos cp))
    then or_in DIR_SOUTH cp
    else if Qlt_le_dec (Point.y (ConnectionPoint.pos cp)) (Point.y center)
    then or_in DIR_NORTH cp
    else cp in
  if (ConnectionPoint.flags cp =? CP_FLAGS_MAIN)%Z then or_in DIR_ALL cp
  else cp.

(** [for (; i < num_connections; ++i)], with [n] iterations left. *)
Fixpoint update_directions_loop (center : Point) (n i : nat)
    (cps : list ConnectionPoint) : option (list ConnectionPoint) :=
  match n with
  | O => Some cps
  | S n =>
      cps ← set_cp i (update_directions_body center) cps;
      update_directions_loop center n (S i) cps
  end.

Definition element_update_connections_directions (elem : Element)
    (cps : list ConnectionPoint) : option (list ConnectionPoint) :=
  let center :=
    Point.mk
      (Point.x (Element.corner elem) + Element.width elem / 2)
      (Point.y (Element.corner elem) + Element.height elem / 2) in
  update_directions_loop center
    (Z.to_nat (DiaObject.num_connections (Element.object elem))) 0 cps.

(** ** element_load *)

(** The XML layer and the base object's loader, which [element_load] calls
    and which live outside this file.  A [DiaContext] collects the messages
    of a load; a call that may add one returns the context after it. *)
Class ObjectIO : Type := {
  ObjectNode : Type;
  AttributeNode : Type;
  DataNode : Type;
  DiaContext : Type;
  (** [object_load (obj, obj_node, ctx)] fills [*obj]. *)
  object_load : DiaObject -> ObjectNode -> DiaContext -> DiaObject * DiaContext;
  (** [object_find_attribute (obj_node, name)]: [None] for [NULL]. *)
  object_find_attribute : ObjectNode -> string -> option AttributeNode;
  attribute_first_data : AttributeNode -> DataNode;
  (** [data_point (data, point, ctx)] writes through [point], whose content
      on entry is its second argument here. *)
  data_point : DataNode -> Point -> DiaContext -> Point * DiaContext;
  data_real : DataNode -> DiaContext -> Q * DiaContext
}.

(** The element and the context after the call. *)
Definition element_load `{ObjectIO} (elem : Element) (obj_node : ObjectNode)
    (ctx : DiaContext) : Element * DiaContext :=
  let '(obj, ctx) := object_load (Element.object elem) obj_node ctx in
  let elem := Element.set_object obj elem in

  let elem := Element.set_corner_x 0 elem in
  let elem := Element.set_corner_y 0 elem in
  let attr := object_find_attribute obj_node "elem_corner" in
  let '(elem, ctx) :=
    match attr with
    | Some attr =>
        let '(pt, ctx) :=
          data_point (attribute_first_data attr) (Element.corner elem) ctx in
        (Element.set_corner pt elem, ctx)
    | None => (elem, ctx)
    end in

  let elem := Element.set_width 1 elem in
  let attr := object_find_attribute obj_node "elem_width" in
  let '(elem, ctx) :=
    match attr with
    | Some attr =>
        let '(v, ctx) := data_real (attribute_first_data attr) ctx in
        (Element.set_width v elem, ctx)
    | None => (elem, ctx)
    end in

  let elem := Element.set_height 1 elem in
  let attr := object_find_attribute obj_node "elem_height" in
  match attr with
  | Some attr =>
      let '(v, ctx) := data_real (attribute_first_data attr) ctx in
      (Element.set_height v elem, ctx)
  | None => (elem, ctx)
  end.

(** ** The undo record *)

(** A [DiaObject *] is the address of the element that embeds the object:
    [&(ec->element->object)] is [ec->element].  The guard compares addresses
    only; the element is read after it.  The result is the record and the
    store after the call, [None] when [ec->element] points to no element. *)
Definition _element_change_swap (ec : DiaElementObjectChange)
    (obj : option nat) (heap : gmap nat Element)
    : option (DiaElementObjectChange * gmap nat Element) :=
  let addr := DiaElementObjectChange.element ec in
  if negb (bool_decide (obj = None) || bool_decide (obj = Some addr))
  then Some (ec, heap)
  else
    elem ← heap !! addr;
    let tmppt := DiaElementObjectChange.corner ec in
    let ec :=
      DiaElementObjectChange.mk addr
        (DiaObject.position (Element.object elem))
        (DiaElementObjectChange.width ec) (DiaElementObjectChange.height ec) in
    let elem :=
      Element.set_object
        (DiaObject.set_position tmppt (Element.object elem)) elem in
    let tmp := DiaElementObjectChange.width ec in
    let ec :=
      DiaElementObjectChange.mk addr (DiaElementObjectChange.corner ec)
        (Element.width elem) (DiaElementObjectChange.height ec) in
    let elem := Element.set_width tmp elem in
    let tmp := DiaElementObjectChange.height ec in
    let ec :=
      DiaElementObjectChange.mk addr (DiaElementObjectChange.corner ec)
        (DiaElementObjectChange.width ec) (Element.height elem) in
    let elem := Element.set_height tmp elem in
    Some (ec, <[addr := elem]> heap).

Definition dia_element_object_change_revert (self : DiaObjectChange)
    (obj : option nat) (heap : gmap nat Element)
    : option (DiaObjectChange * gmap nat Element) :=
  _element_change_swap self obj heap.

Definition dia_element_object_change_apply (self : DiaObjectChange)
    (obj : option nat) (heap : gmap nat Element)
    : option (DiaObjectChange * gmap nat Element) :=
  _element_change_swap self obj heap.

(** [corner] is a pointer that the function never follows ([None] for
    [NULL]).  The result is the new record, [None] when [elem] points to no
    element. *)
Definition element_change_new (corner : option Point) (width height : Q)
    (elem : nat) (heap : gmap nat Element) : option DiaObjectChange :=
  e ← heap !! elem;
  let ec_element := elem in
  let ec_corner := Element.corner e in
  let ec_width := Element.width e in
  let ec_height := Element.height e in
  Some (DiaElementObjectChange.mk ec_element ec_corner ec_width ec_height).

(** ** Definitions used to state the properties *)

(** The pose of an element: its corner, width and height. *)
Definition pose (elem : Element) : Point * Q * Q :=
  (Element.corner elem, Element.width elem, Element.height elem).

(** The columns and rows of resize handles. *)
Definition on_west (id : HandleId) : bool :=
  match id with
  | HANDLE_RESIZE_NW | HANDLE_RESIZE_W | HANDLE_RESIZE_SW => true
  | _ => false
  end.

Definition on_north (id : HandleId) : bool :=
  match id with
  | HANDLE_RESIZE_NW | HANDLE_RESIZE_N | HANDLE_RESIZE_NE => true
  | _ => false
  end.

(** The canonical layout of a rectangle: its four corners and four edge
    midpoints in the order NW, N, NE, W, E, SW, S, SE, and its center. *)
Definition rectangle_points (corner : Point) (w h : Q) : list Point :=
  [ Point.mk (Point.x corner) (Point.y corner);
    Point.mk (Point.x corner + w / 2) (Point.y corner);
    Point.mk (Point.x corner + w) (Point.y corner);
    Point.mk (Point.x corner) (Point.y corner + h / 2);
    Point.mk (Point.x corner + w) (Point.y corner + h / 2);
    Point.mk (Point.x corner) (Point.y corner + h);
    Point.mk (Point.x corner + w / 2) (Point.y corner + h);
    Point.mk (Point.x corner + w) (Point.y corner + h) ].

Definition rectangle_center (corner : Point) (w h : Q) : Point :=
  Point.mk (Point.x corner + w / 2) (Point.y corner + h / 2).

(** The direction bit of one axis, by the sign of [v - c]. *)
Definition axis_bit (v c : Q) (above below : Z) : Z :=
  match Qcompare v c with
  | Gt => above
  | Lt => below
  | Eq => DIR_NONE
  end.

(** The mask that the quadrant rule gives a point, seen from [center]. *)
Definition quadrant_directions (center pos : Point) : Z :=
  Z.lor (axis_bit (Point.x pos) (Point.x center) DIR_EAST DIR_WEST)
        (axis_bit (Point.y pos) (Point.y center) DIR_SOUTH DIR_NORTH).

(** The aspect-preserving resize as the specification words it: the table
    of candidates and anchor fractions, [None] for an axis the handle leaves
    unset, then the four steps. *)
Definition spec_aspect_table (id : HandleId) (w h : Q) (p : Point)
    : option Q * option Q * Q * Q :=
  match id with
  | HANDLE_RESIZE_NW => (Some (w - Point.x p), Some (h - Point.y p), 1, 1)
  | HANDLE_RESIZE_N => (None, Some (h - Point.y p), 1 # 2, 1)
  | HANDLE_RESIZE_NE => (Some (Point.x p), Some (h - Point.y p), 0, 1)
  | HANDLE_RESIZE_W => (Some (w - Point.x p), None, 1, 1 # 2)
  | HANDLE_RESIZE_E => (Some (Point.x p), None, 0, 1 # 2)
  | HANDLE_RESIZE_SW => (Some (w - Point.x p), Some (Point.y p), 1, 0)
  | HANDLE_RESIZE_S => (None, Some (Point.y p), 1 # 2, 0)
  | HANDLE_RESIZE_SE => (Some (Point.x p), Some (Point.y p), 0, 0)
  | _ => (None, None, 0, 0)
  end.

Definition spec_conform (aspect new_w new_h : Q) : Q * Q :=
  match Qcompare new_w (new_h * aspect) with
  | Gt => (new_w, new_w / aspect)
  | _ => (new_h * aspect, new_h)
  end.

Definition spec_clamp (new_w new_h : Q) : Q * Q :=
  match Qcompare new_w 0, Qcompare new_h 0 with
  | Lt, _ | _, Lt => (0, 0)
  | _, _ => (new_w, new_h)
  end.

Definition spec_move_handle_aspect (elem : Element) (id : HandleId)
    (to : Point) (aspect : Q) : Element :=
  let w := Element.width elem in
  let h := Element.height elem in
  let p := point_sub to (Element.corner elem) in
  let '(cand_w, cand_h, ax, ay) := spec_aspect_table id w h p in
  let '(new_w, new_h) :=
    spec_conform aspect (default 0 cand_w) (default 0 cand_h) in
  let '(new_w, new_h) := spec_clamp new_w new_h in
  Element.mk (Element.object elem) (Element.resize_handles elem)
    (Point.mk (Point.x (Element.corner elem) - (new_w - w) * ax)
              (Point.y (Element.corner elem) - (new_h - h) * ay))
    new_w new_h.

(** The anchor fractions [(ax, ay)] of a handle, from the table. *)
Definition spec_anchor (id : HandleId) : Q * Q :=
  let '(_, _, ax, ay) := spec_aspect_table id 0 0 (Point.mk 0 0) in (ax, ay).

(** The anchor of a resize: the point of the rectangle at the fractions
    [(ax, ay)] of its width and height. *)
Definition anchor_point (elem : Element) (ax ay : Q) : Point :=
  Point.mk (Point.x (Element.corner elem) + ax * Element.width elem)
           (Point.y (Element.corner elem) + ay * Element.height elem).

(** ** Sample values *)

Definition sample_object : DiaObject :=
  DiaObject.mk (Point.mk 0 0) (DiaRectangle.mk 0 0 0 0) 9.

Definition sample_handle : Handle :=
  Handle.mk HANDLE_CUSTOM1 (Point.mk 0 0) 0 0 None.

Definition sample_element (corner : Point) (w h : Q) : Element :=
  Element.mk sample_object (replicate 8 sample_handle) corner w h.

Definition sample_cp (pos : Point) (flags : Z) : ConnectionPoint :=
  ConnectionPoint.mk pos DIR_NONE flags.

(** A small XML layer: a node lists its attributes by name, an attribute
    holds a point or a real, the context is the list of messages, and the
    base loader reads nothing. *)
Fixpoint sample_find (node : list (string * (Point + Q))) (name : string)
    : option (Point + Q) :=
  match node with
  | [] => None
  | (n, a) :: node => if String.eqb n name then Some a else sample_find node name
  end.

Definition sample_io : ObjectIO := {|
  ObjectNode := list (string * (Point + Q));
  AttributeNode := Point + Q;
  DataNode := Point + Q;
  DiaContext := list string;
  object_load := fun obj _ ctx => (obj, ctx);
  object_find_attribute := sample_find;
  attribute_first_data := fun a => a;
  data_point := fun d pt ctx =>
    match d with
    | inl v => (v, ctx)
    | inr _ => (pt, "Taking point value of non-point node." :: ctx)
    end;
  data_real := fun d ctx =>
    match d with
    | inr v => (v, ctx)
    | inl _ => (0, "Taking real value of non-real node." :: ctx)
    end
|}.

(** ** element_update_boundingbox *)

Definition DiaObject_set_bounding_box (v : DiaRectangle) (o : DiaObject)
    : DiaObject :=
  DiaObject.mk (DiaObject.position o) v (DiaObject.num_connections o).

(** [rectangle_bbox (rin, extra, rout)] lives outside this file and is a
    parameter; it writes [*rout], its result here.  [extra_spacing] is the
    field [elem->extra_spacing], which the [Element] record above leaves
    out: it is passed beside the element. *)
Definition element_update_boundingbox {ElementBBExtras : Type}
    (rectangle_bbox : DiaRectangle -> ElementBBExtras -> DiaRectangle)
    (extra_spacing : ElementBBExtras) (elem : Element) : Element :=
  let extra := extra_spacing in
  let corner := Element.corner elem in
  let bb_left := Point.x corner in
  let bb_right := Point.x corner + Element.width elem in
  let bb_top := Point.y corner in
  let bb_bottom := Point.y corner + Element.height elem in
  let bb := DiaRectangle.mk bb_left bb_top bb_right bb_bottom in
  Element.set_object
    (DiaObject_set_bounding_box (rectangle_bbox bb extra) (Element.object elem))
    elem.

(** ** element_get_poly *)




(** ** Further definitions used to state properties *)




Definition on_east (id : HandleId) : bool :=
  match id with
  | HANDLE_RESIZE_NE | HANDLE_RESIZE_E | HANDLE_RESIZE_SE => true
  | _ => false
  end.

Definition on_south (id : HandleId) : bool :=
  match id with
  | HANDLE_RESIZE_SW | HANDLE_RESIZE_S | HANDLE_RESIZE_SE => true
  | _ => false
  end.

(** The sizes that a drag asks of the aspect-preserving resize: the
    candidate width and height of the handle, 0 on an axis that the handle
    leaves unset. *)
Definition drag_size (elem : Element) (id : HandleId) (to : Point) : Q * Q :=
  let p := point_sub to (Element.corner elem) in
  let '(cand_w, cand_h, _, _) :=
    spec_aspect_table id (Element.width elem) (Element.height elem) p in
  (default 0 cand_w, default 0 cand_h).

(** A point inside a rectangle, borders included. *)
Definition inside (r : DiaRectangle) (p : Point) : Prop :=
  DiaRectangle.left r <= Point.x p <= DiaRectangle.right r /\
  DiaRectangle.top r <= Point.y p <= DiaRectangle.bottom r.

(** [outer] encloses [inner]. *)
Definition encloses (outer inner : DiaRectangle) : Prop :=
  DiaRectangle.left outer <= DiaRectangle.left inner /\
  DiaRectangle.right inner <= DiaRectangle.right outer /\
  DiaRectangle.top outer <= DiaRectangle.top inner /\
  DiaRectangle.bottom inner <= DiaRectangle.bottom outer.

(** ** Further sample values *)

(** A bounding-box expansion by a border on every side. *)
Definition sample_rectangle_bbox (r : DiaRectangle) (border : Q)
    : DiaRectangle :=
  DiaRectangle.mk (DiaRectangle.left r - border) (DiaRectangle.top r - border)
    (DiaRectangle.right r + border) (DiaRectangle.bottom r + border).


(** ** Proof support *)

(** Evaluate the range guards on a concrete handle id. *)
Ltac eval_guards :=
  repeat match goal with
  | |- context [HandleId_ge ?a ?b] =>
      let v := eval vm_compute in (HandleId_ge a b) in
      change (HandleId_ge a b) with v
  | |- context [HandleId_le ?a ?b] =>
      let v := eval vm_compute in (HandleId_le a b) in
      change (HandleId_le a b) with v
  end.

(** Unfold the record plumbing, leaving the arithmetic on [Q] folded. *)
Ltac unfold_elem :=
  cbv beta iota zeta delta
    [negb when point_sub fst snd pose anchor_point
     Element.set_object Element.set_resize_handles Element.set_corner
     Element.set_corner_x Element.set_corner_y Element.set_width
     Element.set_height Element.object Element.resize_handles
     Element.corner Element.width Element.height Point.x Point.y] in *.

Ltac split_guards :=
  repeat match goal with
  | |- context [Qlt_le_dec ?a ?b] => destruct (Qlt_le_dec a b)
  end.

Lemma is_resize_id_cases (id : HandleId) :
  is_resize_id id = true ->
  id ∈ [HANDLE_RESIZE_NW; HANDLE_RESIZE_N; HANDLE_RESIZE_NE; HANDLE_RESIZE_W;
        HANDLE_RESIZE_E; HANDLE_RESIZE_SW; HANDLE_RESIZE_S; HANDLE_RESIZE_SE].
Proof. destruct id; intros Hid; try discriminate Hid; set_solver. Qed.

(** ** The free resize *)

(** The call returns [NULL] on every path. *)
Lemma element_move_handle_returns_null (elem : Element) (id : HandleId)
    (to : Point) :
  fst (element_move_handle elem id to) = None.
Proof.
  unfold element_move_handle.
  destruct (negb (HandleId_ge id HANDLE_RESIZE_NW)); [reflexivity|].
  destruct (negb (HandleId_le id HANDLE_RESIZE_SE)); [reflexivity|].
  destruct id; reflexivity.
Qed.

(** An id outside [RESIZE_NW .. RESIZE_SE] leaves the element as it is. *)
Lemma element_move_handle_other_id (elem : Element) (id : HandleId)
    (to : Point) :
  is_resize_id id = false -> element_move_handle elem id to = (None, elem).
Proof. destruct id; intros Hid; try discriminate Hid; reflexivity. Qed.

(** C1. The per-handle rules of the free resize.  RESIZE_NW with the target
    at or beyond the opposite corner leaves the element unchanged; RESIZE_SE
    with [p = to - corner] positive on both axes sets the width to [p.x] and
    the height to [p.y] and keeps the corner; RESIZE_E with [p.x <= 0]
    leaves the element unchanged.  The three scenarios of the specification
    follow: NW to (20,20) on corner (10,10), 4 by 4; SE to (5,3) on corner
    (0,0), 2 by 2; E to (-1,2) on corner (0,0), 5 by 5. *)
Theorem element_move_handle_rules :
  (forall (elem : Element) (to : Point),
     Point.x (Element.corner elem) + Element.width elem <= Point.x to ->
     Point.y (Element.corner elem) + Element.height elem <= Point.y to ->
     element_move_handle elem HANDLE_RESIZE_NW to = (None, elem)) /\
  (forall (elem : Element) (to : Point),
     let p := point_sub to (Element.corner elem) in
     0 < Point.x p -> 0 < Point.y p ->
     element_move_handle elem HANDLE_RESIZE_SE to =
       (None, Element.mk (Element.object elem) (Element.resize_handles elem)
                (Element.corner elem) (Point.x p) (Point.y p))) /\
  (forall (elem : Element) (to : Point),
     Point.x (point_sub to (Element.corner elem)) <= 0 ->
     element_move_handle elem HANDLE_RESIZE_E to = (None, elem)) /\
  (forall (obj : DiaObject) (hs : list Handle),
     element_move_handle (Element.mk obj hs (Point.mk 10 10) 4 4)
       HANDLE_RESIZE_NW (Point.mk 20 20) =
     (None, Element.mk obj hs (Point.mk 10 10) 4 4)) /\
  (forall (obj : DiaObject) (hs : list Handle),
     element_move_handle (Element.mk obj hs (Point.mk 0 0) 2 2)
       HANDLE_RESIZE_SE (Point.mk 5 3) =
     (None, Element.mk obj hs (Point.mk 0 0) 5 3)) /\
  (forall (obj : DiaObject) (hs : list Handle),
     element_move_handle (Element.mk obj hs (Point.mk 0 0) 5 5)
       HANDLE_RESIZE_E (Point.mk (-1) 2) =
     (None, Element.mk obj hs (Point.mk 0 0) 5 5)).
Proof.
  repeat apply conj.
  - intros [obj hs [cx cy] w h] [tx ty] Hx Hy.
    unfold element_move_handle; eval_guards; unfold_elem.
    destruct (Qlt_le_dec tx (cx + w)) as [Hlt|_]; [lra|]. unfold_elem.
    destruct (Qlt_le_dec ty (cy + h)) as [Hlt|_]; [lra|]. reflexivity.
  - intros [obj hs [cx cy] w h] [tx ty] p Hx Hy; subst p.
    unfold element_move_handle; eval_guards; unfold_elem.
    destruct (Qlt_le_dec 0 (tx - cx)) as [_|Hle]; [|lra]. unfold_elem.
    destruct (Qlt_le_dec 0 (ty - cy)) as [_|Hle]; [|lra]. reflexivity.
  - intros [obj hs [cx cy] w h] [tx ty] Hx.
    unfold element_move_handle; eval_guards; unfold_elem.
    destruct (Qlt_le_dec 0 (tx - cx)) as [Hlt|_]; [lra|]. reflexivity.
  - intros obj hs. reflexivity.
  - intros obj hs. reflexivity.
  - intros obj hs. reflexivity.
Qed.

Lemma element_move_handle_rules_witness :
  element_move_handle (sample_element (Point.mk 10 10) 4 4)
    HANDLE_RESIZE_NW (Point.mk 20 20)
  = (None, sample_element (Point.mk 10 10) 4 4) /\
  element_move_handle (sample_element (Point.mk 0 0) 2 2)
    HANDLE_RESIZE_SE (Point.mk 5 3)
  = (None, sample_element (Point.mk 0 0) 5 3) /\
  element_move_handle (sample_element (Point.mk 0 0) 5 5)
    HANDLE_RESIZE_E (Point.mk (-1) 2)
  = (None, sample_element (Point.mk 0 0) 5 5).
Proof.
  destruct element_move_handle_rules as (Hnw & Hse & He & _).
  split; [|split].
  - apply Hnw; simpl; lra.
  - apply (Hse (sample_element (Point.mk 0 0) 2 2) (Point.mk 5 3));
      simpl; lra.
  - apply He; simpl; lra.
Defined.

(** C2. A resize through [element_move_handle] keeps an element with
    non-negative width and height non-negative on both, for every handle id
    and every target.  The side opposite to the dragged handle stays where
    it was: the east side for a handle of the west column, the west side
    otherwise; the south side for a handle of the north row, the north side
    otherwise.  So the dragged side never crosses it. *)
Theorem element_move_handle_nonneg (elem : Element) (id : HandleId)
    (to : Point) :
  0 <= Element.width elem -> 0 <= Element.height elem ->
  let elem' := snd (element_move_handle elem id to) in
  (0 <= Element.width elem' /\ 0 <= Element.height elem') /\
  (if on_west id
   then Point.x (Element.corner elem') + Element.width elem' ==
        Point.x (Element.corner elem) + Element.width elem
   else Point.x (Element.corner elem') = Point.x (Element.corner elem)) /\
  (if on_north id
   then Point.y (Element.corner elem') + Element.height elem' ==
        Point.y (Element.corner elem) + Element.height elem
   else Point.y (Element.corner elem') = Point.y (Element.corner elem)).
Proof.
  destruct elem as [obj hs [cx cy] w h], to as [tx ty].
  intros Hw Hh elem'; subst elem'.
  destruct id; unfold element_move_handle, on_west, on_north;
    eval_guards; unfold_elem; split_guards; unfold_elem;
    repeat split; try reflexivity; try lra.
Qed.

Lemma element_move_handle_nonneg_witness :
  let elem' :=
    snd (element_move_handle (sample_element (Point.mk 10 10) 4 4)
           HANDLE_RESIZE_NW (Point.mk 12 9)) in
  pose elem' = (Point.mk 12 9, 2, 5) /\
  0 <= Element.width elem' /\ 0 <= Element.height elem'.
Proof.
  split; [reflexivity|].
  apply (element_move_handle_nonneg (sample_element (Point.mk 10 10) 4 4)
           HANDLE_RESIZE_NW (Point.mk 12 9)); simpl; lra.
Defined.

(** ** The aspect-preserving resize *)

Ltac crunch := repeat (unfold_elem; split_guards); unfold_elem.

Lemma Qcompare_of_le (a b : Q) : a <= b -> Qcompare a b <> Gt.
Proof. apply Qle_alt. Qed.

Lemma Qcompare_of_lt (a b : Q) : a < b -> Qcompare a b = Lt.
Proof. apply Qlt_alt. Qed.

Lemma Qcompare_of_gt (a b : Q) : b < a -> Qcompare a b = Gt.
Proof. apply Qgt_alt. Qed.

Lemma Qcompare_of_ge (a b : Q) : b <= a -> Qcompare a b <> Lt.
Proof.
  intros Hle Hlt. apply Qlt_alt in Hlt. apply (Qlt_not_le _ _ Hlt Hle).
Qed.

Lemma spec_conform_eq (aspect new_w new_h : Q) :
  spec_conform aspect new_w new_h =
  if Qlt_le_dec (new_h * aspect) new_w
  then (new_w, new_w / aspect) else (new_h * aspect, new_h).
Proof.
  unfold spec_conform.
  destruct (Qlt_le_dec (new_h * aspect) new_w) as [Hlt|Hle].
  - now rewrite (Qcompare_of_gt _ _ Hlt).
  - pose proof (Qcompare_of_le _ _ Hle) as Hc.
    destruct (Qcompare new_w (new_h * aspect)); congruence.
Qed.

Lemma spec_clamp_eq (new_w new_h : Q) :
  spec_clamp new_w new_h =
  if Qlt_le_dec new_w 0 then (0, 0)
  else if Qlt_le_dec new_h 0 then (0, 0) else (new_w, new_h).
Proof.
  unfold spec_clamp.
  destruct (Qlt_le_dec new_w 0) as [Hw|Hw].
  - now rewrite (Qcompare_of_lt _ _ Hw).
  - pose proof (Qcompare_of_ge _ _ Hw) as Hcw.
    destruct (Qlt_le_dec new_h 0) as [Hh|Hh].
    + rewrite (Qcompare_of_lt _ _ Hh). now destruct (Qcompare new_w 0).
    + pose proof (Qcompare_of_ge _ _ Hh) as Hch.
      destruct (Qcompare new_w 0), (Qcompare new_h 0); congruence.
Qed.

(** The code computes what the four steps of the specification compute. *)
Lemma element_move_handle_aspect_refines (elem : Element) (id : HandleId)
    (to : Point) (aspect_ratio : Q) :
  is_resize_id id = true ->
  element_move_handle_aspect elem id to aspect_ratio =
  spec_move_handle_aspect elem id to aspect_ratio.
Proof.
  intros Hid. destruct elem as [obj hs [cx cy] w h], to as [tx ty].
  unfold spec_move_handle_aspect.
  destruct id; try discriminate Hid; clear Hid;
    unfold element_move_handle_aspect, spec_aspect_table;
    eval_guards; cbv beta iota delta [default from_option Datatypes.id];
    unfold_elem; rewrite spec_conform_eq;
    match goal with
    | |- context [Qlt_le_dec ?a ?b] => destruct (Qlt_le_dec a b)
    end;
    unfold_elem; rewrite spec_clamp_eq; crunch; reflexivity.
Qed.

(** The corner moves so that the anchor of the handle stays where it was. *)
Lemma spec_move_handle_aspect_anchor (elem : Element) (id : HandleId)
    (to : Point) (aspect : Q) :
  let elem' := spec_move_handle_aspect elem id to aspect in
  let '(ax, ay) := spec_anchor id in
  Point.x (anchor_point elem' ax ay) == Point.x (anchor_point elem ax ay) /\
  Point.y (anchor_point elem' ax ay) == Point.y (anchor_point elem ax ay).
Proof.
  unfold spec_move_handle_aspect, spec_anchor.
  destruct elem as [obj hs [cx cy] w h], to as [tx ty].
  destruct id; unfold spec_aspect_table;
    destruct (spec_conform _ _ _) as [nw nh];
    destruct (spec_clamp nw nh) as [nw' nh'];
    unfold_elem; split; ring.
Qed.

(** C3. For a resize id and a positive aspect ratio,
    [element_move_handle_aspect] computes the candidate of the handle, with
    an unset axis entering as 0, conforms it to the ratio, clamps both
    sizes to zero when one is negative, and moves the corner by the anchor
    fractions: it equals [spec_move_handle_aspect], and the anchor of the
    handle stays fixed.  The two scenarios of the specification follow: NW
    to (2,6) on corner (0,0), 10 by 10, ratio 2 gives corner (2,6), 8 by 4;
    NW to (3,3) on corner (0,0), 2 by 2, ratio 1 gives corner (2,2), 0 by
    0. *)
Theorem element_move_handle_aspect_steps :
  (forall (elem : Element) (id : HandleId) (to : Point) (aspect_ratio : Q),
     is_resize_id id = true -> 0 < aspect_ratio ->
     let elem' := element_move_handle_aspect elem id to aspect_ratio in
     elem' = spec_move_handle_aspect elem id to aspect_ratio /\
     Point.x (anchor_point elem' (fst (spec_anchor id)) (snd (spec_anchor id)))
       == Point.x (anchor_point elem (fst (spec_anchor id)) (snd (spec_anchor id))) /\
     Point.y (anchor_point elem' (fst (spec_anchor id)) (snd (spec_anchor id)))
       == Point.y (anchor_point elem (fst (spec_anchor id)) (snd (spec_anchor id)))) /\
  (forall (obj : DiaObject) (hs : list Handle),
     element_move_handle_aspect (Element.mk obj hs (Point.mk 0 0) 10 10)
       HANDLE_RESIZE_NW (Point.mk 2 6) 2 =
     Element.mk obj hs (Point.mk 2 6) 8 4) /\
  (forall (obj : DiaObject) (hs : list Handle),
     element_move_handle_aspect (Element.mk obj hs (Point.mk 0 0) 2 2)
       HANDLE_RESIZE_NW (Point.mk 3 3) 1 =
     Element.mk obj hs (Point.mk 2 2) 0 0).
Proof.
  repeat apply conj.
  - intros elem id to aspect_ratio Hid Hpos elem'; subst elem'.
    rewrite (element_move_handle_aspect_refines _ _ _ _ Hid).
    split; [reflexivity|].
    pose proof (spec_move_handle_aspect_anchor elem id to aspect_ratio) as Ha.
    cbv zeta in Ha. destruct (spec_anchor id) as [ax ay]. exact Ha.
  - intros obj hs. reflexivity.
  - intros obj hs. reflexivity.
Qed.

Lemma element_move_handle_aspect_steps_witness :
  pose (element_move_handle_aspect (sample_element (Point.mk 0 0) 10 10)
          HANDLE_RESIZE_NW (Point.mk 2 6) 2) = (Point.mk 2 6, 8, 4) /\
  pose (element_move_handle_aspect (sample_element (Point.mk 0 0) 10 10)
          HANDLE_RESIZE_E (Point.mk 6 0) 2) = (Point.mk 0 (14 # 4), 6, 6 # 2).
Proof.
  destruct element_move_handle_aspect_steps as (Hgen & _).
  split.
  - destruct (Hgen (sample_element (Point.mk 0 0) 10 10) HANDLE_RESIZE_NW
                (Point.mk 2 6) 2) as (-> & _); [reflexivity|lra|].
    reflexivity.
  - destruct (Hgen (sample_element (Point.mk 0 0) 10 10) HANDLE_RESIZE_E
                (Point.mk 6 0) 2) as (-> & _); [reflexivity|lra|].
    reflexivity.
Defined.

(** C10. For a resize id and a positive aspect ratio, the element that
    [element_move_handle_aspect] leaves has [width = height * aspect_ratio]
    exactly; in the clamped case both are 0. *)
Theorem element_move_handle_aspect_ratio (elem : Element) (id : HandleId)
    (to : Point) (aspect_ratio : Q) :
  is_resize_id id = true -> 0 < aspect_ratio ->
  let elem' := element_move_handle_aspect elem id to aspect_ratio in
  Element.width elem' == Element.height elem' * aspect_ratio.
Proof.
  intros Hid Hpos elem'; subst elem'.
  destruct elem as [obj hs [cx cy] w h], to as [tx ty].
  destruct id; try discriminate Hid; clear Hid;
    unfold element_move_handle_aspect; eval_guards; crunch;
    first [reflexivity | ring | field; lra].
Qed.

Lemma element_move_handle_aspect_ratio_witness :
  let elem' :=
    element_move_handle_aspect (sample_element (Point.mk 1 1) 4 3)
      HANDLE_RESIZE_SE (Point.mk 3 6) 2 in
  pose elem' = (Point.mk 1 1, 10, 5) /\
  Element.width elem' == Element.height elem' * 2.
Proof.
  split; [reflexivity|].
  apply (element_move_handle_aspect_ratio (sample_element (Point.mk 1 1) 4 3)
           HANDLE_RESIZE_SE (Point.mk 3 6) 2); [reflexivity|lra].
Defined.

(** ** The undo record *)

(** What one swap does when its guard passes: the record takes
    [object.position], [width] and [height] of the element, and the element
    takes the record's corner into [object.position] and the record's width
    and height.  [elem->corner] is not written. *)
Lemma element_change_swap_passes (ec : DiaElementObjectChange)
    (obj : option nat) (heap : gmap nat Element) (elem : Element) :
  heap !! DiaElementObjectChange.element ec = Some elem ->
  obj = None \/ obj = Some (DiaElementObjectChange.element ec) ->
  _element_change_swap ec obj heap =
  Some (DiaElementObjectChange.mk (DiaElementObjectChange.element ec)
          (DiaObject.position (Element.object elem))
          (Element.width elem) (Element.height elem),
        <[DiaElementObjectChange.element ec :=
            Element.mk
              (DiaObject.set_position (DiaElementObjectChange.corner ec)
                 (Element.object elem))
              (Element.resize_handles elem) (Element.corner elem)
              (DiaElementObjectChange.width ec)
              (DiaElementObjectChange.height ec)]> heap).
Proof.
  intros Hlook Hobj. unfold _element_change_swap.
  assert (bool_decide (obj = None)
          || bool_decide (obj = Some (DiaElementObjectChange.element ec))
          = true) as ->.
  { destruct Hobj as [->| ->].
    - reflexivity.
    - rewrite (bool_decide_eq_true_2 (Some _ = Some _)) by reflexivity.
      apply orb_true_r. }
  cbn [negb]. rewrite Hlook. reflexivity.
Qed.

(** When the guard fails, nothing is written. *)
Lemma element_change_swap_rejects (ec : DiaElementObjectChange) (addr : nat)
    (heap : gmap nat Element) :
  addr <> DiaElementObjectChange.element ec ->
  _element_change_swap ec (Some addr) heap = Some (ec, heap).
Proof.
  intros Hne. unfold _element_change_swap.
  rewrite (bool_decide_eq_false_2 (Some addr = None)) by discriminate.
  rewrite (bool_decide_eq_false_2 (Some addr = Some _)) by congruence.
  reflexivity.
Qed.

(** No swap changes the corner of an element of the store. *)
Lemma element_change_swap_corner (ec ec' : DiaElementObjectChange)
    (obj : option nat) (heap heap' : gmap nat Element) (addr : nat) :
  _element_change_swap ec obj heap = Some (ec', heap') ->
  Element.corner <$> heap' !! addr = Element.corner <$> heap !! addr.
Proof.
  unfold _element_change_swap.
  destruct (negb _); [intros [= <- <-]; reflexivity|].
  destruct (heap !! DiaElementObjectChange.element ec) as [elem|] eqn:Hlook;
    [|discriminate].
  intros [= <- <-].
  destruct (decide (DiaElementObjectChange.element ec = addr)) as [<-|Hne].
  - rewrite lookup_insert_eq, Hlook. reflexivity.
  - rewrite lookup_insert_ne by assumption. reflexivity.
Qed.

(** C4, on the code.  The record is made while the element is at corner
    (1,1), 3 by 4; the element is then moved to corner (5,5), 7 by 8, and
    its object's position follows its corner.  [revert] gives the element
    the width 3 and the height 4 and puts (1,1) into [object.position], but
    the element's corner is still (5,5): its pose is not the stored one.  A
    second [revert] swaps the same fields back. *)
Theorem element_change_revert_keeps_corner :
  let bbox := DiaRectangle.mk 0 0 0 0 in
  let hs := replicate 8 sample_handle in
  let elem0 := Element.mk (DiaObject.mk (Point.mk 1 1) bbox 9) hs (Point.mk 1 1) 3 4 in
  let elem := Element.mk (DiaObject.mk (Point.mk 5 5) bbox 9) hs (Point.mk 5 5) 7 8 in
  let elem' := Element.mk (DiaObject.mk (Point.mk 1 1) bbox 9) hs (Point.mk 5 5) 3 4 in
  let ec := DiaElementObjectChange.mk 0 (Point.mk 1 1) 3 4 in
  let ec' := DiaElementObjectChange.mk 0 (Point.mk 5 5) 7 8 in
  element_change_new None 0 0 0 {[ 0%nat := elem0 ]} = Some ec /\
  dia_element_object_change_revert ec None {[ 0%nat := elem ]}
    = Some (ec', {[ 0%nat := elem' ]}) /\
  pose elem' = (Point.mk 5 5, 3, 4) /\
  pose elem' <> (Point.mk 1 1, 3, 4) /\
  dia_element_object_change_revert ec' None {[ 0%nat := elem' ]}
    = Some (ec, {[ 0%nat := elem ]}).
Proof.
  cbv zeta. repeat apply conj.
  - reflexivity.
  - unfold dia_element_object_change_revert.
    erewrite element_change_swap_passes;
      [|apply lookup_singleton_eq|left; reflexivity].
    rewrite insert_singleton_eq. reflexivity.
  - reflexivity.
  - discriminate.
  - unfold dia_element_object_change_revert.
    erewrite element_change_swap_passes;
      [|apply lookup_singleton_eq|left; reflexivity].
    rewrite insert_singleton_eq. reflexivity.
Qed.

(** C8. Two consecutive [apply] calls of a record whose element is in the
    store leave the store, and so the element, and the record as they were
    before the first call. *)
Theorem element_change_apply_twice (ec : DiaElementObjectChange)
    (obj : option nat) (heap : gmap nat Element) (elem : Element) :
  heap !! DiaElementObjectChange.element ec = Some elem ->
  match dia_element_object_change_apply ec obj heap with
  | Some (ec1, heap1) =>
      dia_element_object_change_apply ec1 obj heap1 = Some (ec, heap)
  | None => False
  end.
Proof.
  intros Hlook. unfold dia_element_object_change_apply.
  destruct obj as [addr|].
  - destruct (decide (addr = DiaElementObjectChange.element ec)) as [->|Hne].
    + rewrite (element_change_swap_passes _ _ _ _ Hlook) by (right; reflexivity).
      erewrite element_change_swap_passes;
        [|apply lookup_insert_eq|right; reflexivity].
      cbn. rewrite insert_insert_eq.
      destruct ec as [a c w h], elem as [[pos bb n] hs ce we he]; cbn in *.
      rewrite (insert_id _ _ _ Hlook). reflexivity.
    + rewrite (element_change_swap_rejects _ _ _ Hne).
      apply (element_change_swap_rejects _ _ _ Hne).
  - rewrite (element_change_swap_passes _ _ _ _ Hlook) by (left; reflexivity).
    erewrite element_change_swap_passes;
      [|apply lookup_insert_eq|left; reflexivity].
    cbn. rewrite insert_insert_eq.
    destruct ec as [a c w h], elem as [[pos bb n] hs ce we he]; cbn in *.
    rewrite (insert_id _ _ _ Hlook). reflexivity.
Qed.

Lemma element_change_apply_twice_witness :
  let elem := sample_element (Point.mk 5 5) 7 8 in
  let ec := DiaElementObjectChange.mk 0 (Point.mk 1 1) 3 4 in
  match dia_element_object_change_apply ec None {[ 0%nat := elem ]} with
  | Some (ec1, heap1) =>
      dia_element_object_change_apply ec1 None heap1
      = Some (ec, {[ 0%nat := elem ]})
  | None => False
  end.
Proof.
  apply (element_change_apply_twice
           (DiaElementObjectChange.mk 0 (Point.mk 1 1) 3 4) None
           {[ 0%nat := sample_element (Point.mk 5 5) 7 8 ]}
           (sample_element (Point.mk 5 5) 7 8)).
  reflexivity.
Defined.

(** C5. [element_change_new] stores the corner, width and height that the
    element has at the call; its [corner], [width] and [height] arguments do
    not reach the record. *)
Theorem element_change_new_current (heap : gmap nat Element) (addr : nat)
    (elem : Element) (corner : option Point) (width height : Q) :
  heap !! addr = Some elem ->
  element_change_new corner width height addr heap =
    Some (DiaElementObjectChange.mk addr (Element.corner elem)
            (Element.width elem) (Element.height elem)) /\
  forall (corner' : option Point) (width' height' : Q),
    element_change_new corner' width' height' addr heap =
    element_change_new corner width height addr heap.
Proof.
  intros Hlook. unfold element_change_new. rewrite Hlook. split; reflexivity.
Qed.

Lemma element_change_new_current_witness :
  element_change_new (Some (Point.mk 1 1)) 3 4 0
    {[ 0%nat := sample_element (Point.mk 5 5) 7 8 ]}
  = Some (DiaElementObjectChange.mk 0 (Point.mk 5 5) 7 8).
Proof.
  apply (element_change_new_current
           {[ 0%nat := sample_element (Point.mk 5 5) 7 8 ]} 0
           (sample_element (Point.mk 5 5) 7 8) (Some (Point.mk 1 1)) 3 4).
  reflexivity.
Defined.

(** ** Handle and connection-point layout *)

(** C6. On an element with its eight handle slots, nine connection points
    and at least nine slots in [cps]: after [element_update_handles] and
    [element_update_connections_rectangle] the handles carry the ids NW, N,
    NE, W, E, SW, S, SE and sit on the four corners and four edge midpoints
    of the rectangle, [cps[0..7]] have the positions of the handles in that
    order, [cps[8]] is the center, and the direction masks are the fixed
    ones: the two adjacent cardinals on a corner, the outward cardinal on an
    edge midpoint, [DIR_ALL] on the center. *)
Theorem element_update_connections_rectangle_layout (elem : Element)
    (cps : list ConnectionPoint) :
  Element_wf elem ->
  (9 <= DiaObject.num_connections (Element.object elem))%Z ->
  (9 <= length cps)%nat ->
  let elem' := element_update_handles elem in
  let corner := Element.corner elem in
  let w := Element.width elem in
  let h := Element.height elem in
  exists cps' : list ConnectionPoint,
    element_update_connections_rectangle elem' cps = Some cps' /\
    pose elem' = pose elem /\
    Handle.id <$> Element.resize_handles elem' =
      [HANDLE_RESIZE_NW; HANDLE_RESIZE_N; HANDLE_RESIZE_NE; HANDLE_RESIZE_W;
       HANDLE_RESIZE_E; HANDLE_RESIZE_SW; HANDLE_RESIZE_S; HANDLE_RESIZE_SE] /\
    Handle.pos <$> Element.resize_handles elem' = rectangle_points corner w h /\
    ConnectionPoint.pos <$> take 8 cps' =
      Handle.pos <$> Element.resize_handles elem' /\
    ConnectionPoint.pos <$> cps' !! 8%nat = Some (rectangle_center corner w h) /\
    ConnectionPoint.directions <$> take 9 cps' =
      [Z.lor DIR_NORTH DIR_WEST; DIR_NORTH; Z.lor DIR_NORTH DIR_EAST;
       DIR_WEST; DIR_EAST;
       Z.lor DIR_SOUTH DIR_WEST; DIR_SOUTH; Z.lor DIR_SOUTH DIR_EAST;
       DIR_ALL] /\
    ConnectionPoint.flags <$> cps' = ConnectionPoint.flags <$> cps /\
    drop 9 cps' = drop 9 cps.
Proof.
  intros Hwf Hn Hlen elem' corner w h; subst elem' corner w h.
  destruct elem as [[opos bb n] hs [cx cy] w h].
  unfold Element_wf in Hwf; cbn in Hwf, Hn.
  do 8 (destruct hs as [|? hs]; [discriminate Hwf|]).
  destruct hs; [clear Hwf|discriminate Hwf].
  do 9 (destruct cps as [|? cps]; [cbn in Hlen; lia|]). clear Hlen.
  apply Z.leb_le in Hn.
  unfold element_update_connections_rectangle.
  cbv -[Qplus Qdiv Z.leb]. rewrite Hn.
  eexists. split; [reflexivity|]. cbv -[Qplus Qdiv].
  repeat split.
Qed.

Lemma element_update_connections_rectangle_layout_witness :
  let elem := sample_element (Point.mk 1 2) 4 6 in
  exists cps' : list ConnectionPoint,
    element_update_connections_rectangle (element_update_handles elem)
      (replicate 9 (sample_cp (Point.mk 0 0) 0)) = Some cps' /\
    ConnectionPoint.pos <$> take 8 cps' =
      rectangle_points (Point.mk 1 2) 4 6 /\
    ConnectionPoint.pos <$> cps' !! 8%nat = Some (Point.mk (1 + 4 / 2) (2 + 6 / 2)).
Proof.
  destruct (element_update_connections_rectangle_layout
              (sample_element (Point.mk 1 2) 4 6)
              (replicate 9 (sample_cp (Point.mk 0 0) 0)))
    as (cps' & Hrun & _ & _ & Hhandles & Hcps & Hcenter & _).
  - reflexivity.
  - cbn. lia.
  - cbn. lia.
  - exists cps'. split; [exact Hrun|]. split; [|exact Hcenter].
    rewrite Hcps. exact Hhandles.
Defined.

(** ** Directions by quadrant *)

Ltac unfold_cp :=
  cbv beta iota zeta delta
    [ConnectionPoint.set_pos ConnectionPoint.set_pos_x
     ConnectionPoint.set_pos_y ConnectionPoint.set_directions
     ConnectionPoint.pos ConnectionPoint.directions ConnectionPoint.flags
     Point.x Point.y rectangle_center] in *.

Lemma Qcompare_of_eq (a b : Q) : a <= b -> b <= a -> Qcompare a b = Eq.
Proof. intros Hab Hba. apply Qeq_alt. apply Qle_antisym; assumption. Qed.

Lemma axis_bit_eq (v c : Q) (above below : Z) :
  axis_bit v c above below =
  if Qlt_le_dec c v then above
  else if Qlt_le_dec v c then below else DIR_NONE.
Proof.
  unfold axis_bit.
  destruct (Qlt_le_dec c v) as [Hgt|Hle].
  - now rewrite (Qcompare_of_gt _ _ Hgt).
  - destruct (Qlt_le_dec v c) as [Hlt|Hge].
    + now rewrite (Qcompare_of_lt _ _ Hlt).
    + now rewrite (Qcompare_of_eq _ _ Hle Hge).
Qed.

(** One turn of the loop: the position and the flags stay, the mask is
    [DIR_ALL] on a main point and the mask of the quadrant otherwise. *)
Lemma update_directions_body_spec (center : Point) (cp : ConnectionPoint) :
  update_directions_body center cp =
  ConnectionPoint.mk (ConnectionPoint.pos cp)
    (if (ConnectionPoint.flags cp =? CP_FLAGS_MAIN)%Z then DIR_ALL
     else quadrant_directions center (ConnectionPoint.pos cp))
    (ConnectionPoint.flags cp).
Proof.
  destruct cp as [[px py] d f], center as [cx cy].
  unfold update_directions_body, quadrant_directions.
  rewrite !axis_bit_eq. unfold_cp.
  destruct (Qlt_le_dec cx px); [|destruct (Qlt_le_dec px cx)];
    (destruct (Qlt_le_dec cy py); [|destruct (Qlt_le_dec py cy)]);
    unfold_cp; destruct (f =? CP_FLAGS_MAIN)%Z; reflexivity.
Qed.

(** The loop from [i] with [n] turns left runs the body once on each of
    [cps[i .. i+n-1]] and touches nothing else. *)
Lemma update_directions_loop_spec (center : Point) (n : nat) :
  forall (i : nat) (cps : list ConnectionPoint),
    (i + n <= length cps)%nat ->
    exists cps' : list ConnectionPoint,
      update_directions_loop center n i cps = Some cps' /\
      length cps' = length cps /\
      forall j : nat,
        cps' !! j =
        if decide (i <= j < i + n)%nat
        then update_directions_body center <$> cps !! j
        else cps !! j.
Proof.
  induction n as [|n IH]; intros i cps Hlen.
  - exists cps. split; [reflexivity|]. split; [reflexivity|].
    intros j. case_decide; [lia|reflexivity].
  - destruct (lookup_lt_is_Some_2 cps i) as [cp Hcp]; [lia|].
    cbn [update_directions_loop]. unfold set_cp. rewrite Hcp. cbn [mbind option_bind].
    destruct (IH (S i) (<[i := update_directions_body center cp]> cps))
      as (cps' & Hrun & Hlen' & Hlook).
    { rewrite length_insert. lia. }
    exists cps'. split; [exact Hrun|].
    split; [rewrite Hlen'; apply length_insert|].
    intros j. rewrite Hlook.
    destruct (decide (j = i)) as [->|Hne].
    + rewrite list_lookup_insert_eq by lia.
      rewrite Hcp. repeat case_decide; try lia. reflexivity.
    + rewrite list_lookup_insert_ne by congruence.
      repeat case_decide; try lia; reflexivity.
Qed.

(** C7. When [cps] has the [num_connections] slots that the loop visits,
    [element_update_connections_directions] gives every point below
    [num_connections] the mask of its quadrant around the center
    [corner + (width/2, height/2)]: east or west by the strict sign of
    [pos.x - center.x], south or north by the strict sign of
    [pos.y - center.y], no bit on an axis where they are equal; a point
    whose flags are [CP_FLAGS_MAIN] has [DIR_ALL].  Positions, flags and the
    points from [num_connections] on are untouched.  In particular the
    mid-east point [corner + (width, height/2)] of an element of positive
    width, when it is not the main point, has the mask [DIR_EAST]. *)
Theorem element_update_connections_directions_quadrants (elem : Element)
    (cps : list ConnectionPoint) :
  let n := DiaObject.num_connections (Element.object elem) in
  let corner := Element.corner elem in
  let w := Element.width elem in
  let h := Element.height elem in
  let center := rectangle_center corner w h in
  (Z.to_nat n <= length cps)%nat ->
  exists cps' : list ConnectionPoint,
    element_update_connections_directions elem cps = Some cps' /\
    length cps' = length cps /\
    (forall (i : nat) (cp : ConnectionPoint),
       (Z.of_nat i < n)%Z -> cps !! i = Some cp ->
       cps' !! i =
       Some (ConnectionPoint.mk (ConnectionPoint.pos cp)
               (if (ConnectionPoint.flags cp =? CP_FLAGS_MAIN)%Z then DIR_ALL
                else quadrant_directions center (ConnectionPoint.pos cp))
               (ConnectionPoint.flags cp))) /\
    (forall i : nat, (n <= Z.of_nat i)%Z -> cps' !! i = cps !! i) /\
    (forall (i : nat) (cp : ConnectionPoint),
       (Z.of_nat i < n)%Z -> cps !! i = Some cp ->
       ConnectionPoint.flags cp <> CP_FLAGS_MAIN ->
       0 < w ->
       Point.x (ConnectionPoint.pos cp) == Point.x corner + w ->
       Point.y (ConnectionPoint.pos cp) == Point.y corner + h / 2 ->
       ConnectionPoint.directions <$> cps' !! i = Some DIR_EAST).
Proof.
  destruct elem as [[opos bb n] hs [cx cy] w h].
  cbn [Element.object Element.corner Element.width Element.height
       DiaObject.num_connections].
  intros Hlen. set (center := rectangle_center (Point.mk cx cy) w h).
  destruct (update_directions_loop_spec center (Z.to_nat n) 0 cps)
    as (cps' & Hrun & Hlen' & Hlook); [lia|].
  assert (forall (i : nat) (cp : ConnectionPoint),
            (Z.of_nat i < n)%Z -> cps !! i = Some cp ->
            cps' !! i =
            Some (ConnectionPoint.mk (ConnectionPoint.pos cp)
                    (if (ConnectionPoint.flags cp =? CP_FLAGS_MAIN)%Z
                     then DIR_ALL
                     else quadrant_directions center (ConnectionPoint.pos cp))
                    (ConnectionPoint.flags cp))) as Hgen.
  { intros i cp Hi Hcp. rewrite Hlook, Hcp.
    case_decide; [|lia]. cbn [fmap option_fmap option_map].
    now rewrite update_directions_body_spec. }
  exists cps'. split; [exact Hrun|]. split; [exact Hlen'|].
  split; [exact Hgen|]. split.
  - intros i Hi. rewrite Hlook. case_decide; [lia|reflexivity].
  - intros i cp Hi Hcp Hmain Hw Hx Hy.
    rewrite (Hgen i cp Hi Hcp). cbn [fmap option_fmap option_map].
    f_equal. destruct cp as [[px py] d f]. subst center. unfold_cp.
    apply Z.eqb_neq in Hmain. rewrite Hmain.
    unfold quadrant_directions, axis_bit; unfold_cp.
    unfold Qdiv in *; change (/ 2) with (1 # 2) in *.
    rewrite Qcompare_of_gt by lra.
    rewrite Qcompare_of_eq by lra.
    reflexivity.
Qed.

Lemma element_update_connections_directions_quadrants_witness :
  let elem := sample_element (Point.mk 0 0) 4 2 in
  let cps :=
    ((fun p => sample_cp p 0) <$> rectangle_points (Point.mk 0 0) 4 2)
    ++ [sample_cp (Point.mk 2 1) CP_FLAGS_MAIN] in
  exists cps' : list ConnectionPoint,
    element_update_connections_directions elem cps = Some cps' /\
    ConnectionPoint.directions <$> cps' !! 4%nat = Some DIR_EAST /\
    ConnectionPoint.directions <$> cps' !! 8%nat = Some DIR_ALL.
Proof.
  intros elem cps.
  destruct (element_update_connections_directions_quadrants elem cps)
    as (cps' & Hrun & _ & Hgen & _ & Heast).
  - cbn. lia.
  - exists cps'. split; [exact Hrun|]. split.
    + apply (Heast 4%nat (sample_cp (Point.mk (0 + 4) (0 + 2 / 2)) 0)).
      * cbn. lia.
      * reflexivity.
      * discriminate.
      * cbn. lra.
      * cbn. lra.
      * cbn. lra.
    + rewrite (Hgen 8%nat (sample_cp (Point.mk 2 1) CP_FLAGS_MAIN)).
      * reflexivity.
      * cbn. lia.
      * reflexivity.
Defined.

(** ** Loading *)

(** C9. [element_load] hands the object to the base loader, then takes the
    corner, the width and the height from the attributes [elem_corner],
    [elem_width] and [elem_height].  An absent attribute gives its default,
    (0,0), 1 and 1, and adds nothing to the context: the context of the
    result is the one of the base loader, passed through the readers of the
    attributes that are present. *)
Theorem element_load_defaults `{ObjectIO} (elem : Element)
    (obj_node : ObjectNode) (ctx : DiaContext) :
  let base := object_load (Element.object elem) obj_node ctx in
  let res := element_load elem obj_node ctx in
  let attr := object_find_attribute obj_node in
  let ctx1 := snd base in
  let ctx2 :=
    match attr "elem_corner" with
    | Some a => snd (data_point (attribute_first_data a) (Point.mk 0 0) ctx1)
    | None => ctx1
    end in
  let ctx3 :=
    match attr "elem_width" with
    | Some a => snd (data_real (attribute_first_data a) ctx2)
    | None => ctx2
    end in
  let ctx4 :=
    match attr "elem_height" with
    | Some a => snd (data_real (attribute_first_data a) ctx3)
    | None => ctx3
    end in
  Element.object (fst res) = fst base /\
  Element.resize_handles (fst res) = Element.resize_handles elem /\
  (attr "elem_corner" = None -> Element.corner (fst res) = Point.mk 0 0) /\
  (attr "elem_width" = None -> Element.width (fst res) = 1) /\
  (attr "elem_height" = None -> Element.height (fst res) = 1) /\
  (forall a : AttributeNode, attr "elem_corner" = Some a ->
     Element.corner (fst res) =
     fst (data_point (attribute_first_data a) (Point.mk 0 0) ctx1)) /\
  (forall a : AttributeNode, attr "elem_width" = Some a ->
     Element.width (fst res) = fst (data_real (attribute_first_data a) ctx2)) /\
  (forall a : AttributeNode, attr "elem_height" = Some a ->
     Element.height (fst res) = fst (data_real (attribute_first_data a) ctx3)) /\
  snd res = ctx4 /\
  (attr "elem_corner" = None -> attr "elem_width" = None ->
   attr "elem_height" = None -> snd res = ctx1).
Proof.
  intros base res attr ctx1 ctx2 ctx3 ctx4.
  subst res ctx4 ctx3 ctx2 ctx1 base attr. unfold element_load.
  destruct elem as [obj hs c w h].
  destruct (object_load _ obj_node ctx) as [obj1 ctx1]. cbn.
  repeat
    (match goal with
     | |- context [object_find_attribute ?n ?s] =>
         destruct (object_find_attribute n s)
     | |- context [data_point ?d ?pt ?c] =>
         destruct (data_point d pt c) eqn:?
     | |- context [data_real ?d ?c] => destruct (data_real d c) eqn:?
     end; cbn).
  all: repeat split; try discriminate; try (intros ? [= <-]);
    repeat match goal with
           | E : _ = (_, _) |- _ => rewrite E; clear E
           end;
    reflexivity.
Qed.

Lemma element_load_defaults_witness :
  let node : @ObjectNode sample_io := [("elem_width"%string, inr 3)] in
  let res :=
    @element_load sample_io (sample_element (Point.mk 7 7) 9 9) node [] in
  Element.corner (fst res) = Point.mk 0 0 /\
  Element.width (fst res) = 3 /\
  Element.height (fst res) = 1 /\
  snd res = [].
Proof.
  intros node res.
  destruct (@element_load_defaults sample_io
              (sample_element (Point.mk 7 7) 9 9) node [])
    as (_ & _ & Hcorner & _ & Hheight & _ & Hwidth & _ & Hctx & _).
  split; [apply Hcorner; reflexivity|].
  split; [apply (Hwidth (inr 3)); reflexivity|].
  split; [apply Hheight; reflexivity|].
  exact Hctx.
Defined.

(** ** Further properties of the resize engines *)

(** Normal form of the record plumbing on concrete lists and ids, with the
    arithmetic and the comparisons of [Q] left folded. *)
Ltac run_code :=
  cbv -[Qplus Qminus Qmult Qdiv Qopp Qinv Qlt Qle Qeq Qlt_le_dec Qcompare
        Z.leb Z.eqb] in *.


Ltac halves := unfold Qdiv in *; change (/ 2) with (1 # 2) in *.

(** Close a goal that is a syntactic equality or linear arithmetic on [Q];
    [reflexivity] is kept away from [==], where it would compute. *)
Ltac close_goal :=
  lazymatch goal with
  | |- @eq _ _ _ => reflexivity
  | |- _ => lra
  end.

(** X1. Both resize engines refuse an id outside [RESIZE_NW .. RESIZE_SE]: the
    element is left as it is, and [element_move_handle] returns [NULL]. *)
Theorem resize_engines_reject_other_ids (elem : Element) (id : HandleId)
    (to : Point) (aspect_ratio : Q) :
  is_resize_id id = false ->
  element_move_handle elem id to = (None, elem) /\
  element_move_handle_aspect elem id to aspect_ratio = elem.
Proof. destruct id; intros Hid; try discriminate Hid; split; reflexivity. Qed.

Lemma resize_engines_reject_other_ids_witness :
  element_move_handle (sample_element (Point.mk 0 0) 2 2)
    HANDLE_MOVE_ENDPOINT (Point.mk 5 3)
  = (None, sample_element (Point.mk 0 0) 2 2) /\
  element_move_handle_aspect (sample_element (Point.mk 0 0) 2 2)
    HANDLE_CUSTOM3 (Point.mk 5 3) 2
  = sample_element (Point.mk 0 0) 2 2.
Proof.
  split.
  - apply (resize_engines_reject_other_ids _ HANDLE_MOVE_ENDPOINT _ 1).
    reflexivity.
  - apply (resize_engines_reject_other_ids _ HANDLE_CUSTOM3 (Point.mk 5 3) 2).
    reflexivity.
Defined.

(** X2. Neither resize engine writes the base object or the handle slots: the
    handles keep their old positions until [element_update_handles] runs. *)
Theorem resize_engines_keep_object_and_handles (elem : Element)
    (id : HandleId) (to : Point) (aspect_ratio : Q) :
  let moved := snd (element_move_handle elem id to) in
  let scaled := element_move_handle_aspect elem id to aspect_ratio in
  Element.object moved = Element.object elem /\
  Element.resize_handles moved = Element.resize_handles elem /\
  Element.object scaled = Element.object elem /\
  Element.resize_handles scaled = Element.resize_handles elem.
Proof.
  destruct elem as [obj hs [cx cy] w h], to as [tx ty].
  destruct id; unfold element_move_handle, element_move_handle_aspect;
    eval_guards; crunch; repeat split.
Qed.




(** X4. A drag that would take a side across the opposite side is refused on
    that axis, for every resize handle: a target at or east of the east
    side leaves the x extent to a west handle, a target at or west of the
    west side leaves it to an east handle, and likewise for north and
    south. *)
Theorem element_move_handle_refuses_crossing (elem : Element)
    (id : HandleId) (to : Point) :
  let elem' := snd (element_move_handle elem id to) in
  let cx := Point.x (Element.corner elem) in
  let cy := Point.y (Element.corner elem) in
  ((on_west id = true /\ cx + Element.width elem <= Point.x to) \/
   (on_east id = true /\ Point.x to <= cx) ->
   Point.x (Element.corner elem') = cx /\
   Element.width elem' = Element.width elem) /\
  ((on_north id = true /\ cy + Element.height elem <= Point.y to) \/
   (on_south id = true /\ Point.y to <= cy) ->
   Point.y (Element.corner elem') = cy /\
   Element.height elem' = Element.height elem).
Proof.
  destruct elem as [obj hs [cx cy] w h], to as [tx ty].
  destruct id.
  all: unfold element_move_handle; eval_guards.
  all: cbn [on_west on_east on_north on_south]; unfold_elem.
  all: split; intros [[Hside Hto]|[Hside Hto]]; try discriminate Hside.
  all: repeat match goal with
       | |- context [Qlt_le_dec ?a ?b] =>
           destruct (Qlt_le_dec a b); unfold_elem
       end.
  all: first [split; reflexivity | exfalso; lra].
Qed.

Lemma element_move_handle_refuses_crossing_witness :
  pose (snd (element_move_handle (sample_element (Point.mk 10 10) 4 4)
               HANDLE_RESIZE_SW (Point.mk 14 12)))
  = (Point.mk 10 10, 4, 2) /\
  Point.x (Element.corner
             (snd (element_move_handle (sample_element (Point.mk 10 10) 4 4)
                     HANDLE_RESIZE_SW (Point.mk 14 12)))) = 10.
Proof.
  split; [reflexivity|].
  destruct (element_move_handle_refuses_crossing
              (sample_element (Point.mk 10 10) 4 4) HANDLE_RESIZE_SW
              (Point.mk 14 12)) as [Hx _].
  destruct Hx as [Hcorner _]; [|exact Hcorner].
  left. split; [reflexivity|]. cbn. lra.
Defined.




(** X7. The aspect-preserving resize never leaves a negative size, whatever
    sizes the element had before. *)
Theorem element_move_handle_aspect_nonneg (elem : Element) (id : HandleId)
    (to : Point) (aspect_ratio : Q) :
  is_resize_id id = true -> ~ aspect_ratio == 0 ->
  let elem' := element_move_handle_aspect elem id to aspect_ratio in
  0 <= Element.width elem' /\ 0 <= Element.height elem'.
Proof.
  intros Hid _ elem'; subst elem'.
  destruct elem as [obj hs [cx cy] w h], to as [tx ty].
  destruct id; try discriminate Hid; clear Hid.
  all: unfold element_move_handle_aspect; eval_guards; crunch.
  all: split; lra.
Qed.

Lemma element_move_handle_aspect_nonneg_witness :
  let elem' :=
    element_move_handle_aspect (sample_element (Point.mk 0 0) (-3) (-5))
      HANDLE_RESIZE_NW (Point.mk 1 1) 2 in
  pose elem' = (Point.mk (-3) (-5), 0, 0) /\
  0 <= Element.width elem' /\ 0 <= Element.height elem'.
Proof.
  split; [reflexivity|].
  apply (element_move_handle_aspect_nonneg
           (sample_element (Point.mk 0 0) (-3) (-5)) HANDLE_RESIZE_NW
           (Point.mk 1 1) 2); [reflexivity|].
  intros Hzero. discriminate Hzero.
Defined.



Lemma conform_grows (a nw nh : Q) : 0 < a -> nh * a < nw -> nh < nw / a.
Proof. intros Ha Hlt. apply Qlt_shift_div_l; assumption. Qed.

(** X9. When the drag asks for no negative size, the aspect-preserving resize
    gives at least the width and the height that the drag asks, and exactly
    one of them: the box grows to the ratio, it never shrinks below the
    drag. *)
Theorem element_move_handle_aspect_covers_drag (elem : Element)
    (id : HandleId) (to : Point) (aspect_ratio : Q) :
  is_resize_id id = true -> 0 < aspect_ratio ->
  let asked := drag_size elem id to in
  let elem' := element_move_handle_aspect elem id to aspect_ratio in
  0 <= fst asked -> 0 <= snd asked ->
  fst asked <= Element.width elem' /\
  snd asked <= Element.height elem' /\
  (Element.width elem' == fst asked \/ Element.height elem' == snd asked).
Proof.
  intros Hid Ha.
  destruct elem as [obj hs [cx cy] w h], to as [tx ty].
  destruct id; try discriminate Hid; clear Hid.
  all: cbv beta iota zeta delta
         [drag_size spec_aspect_table default from_option Datatypes.id
          fst snd].
  all: unfold element_move_handle_aspect; eval_guards; unfold_elem.
  all: intros Hcw Hch.
  all: match goal with
       | |- context [Qlt_le_dec (?nh * ?a) ?nw] =>
           destruct (Qlt_le_dec (nh * a) nw) as [Hlt|Hle];
           [pose proof (conform_grows _ _ _ Ha Hlt)|]
       end.
  all: crunch.
  all: repeat apply conj; try lra.
  all: try (left; lra); try (right; lra).
Qed.

Lemma element_move_handle_aspect_covers_drag_witness :
  let elem' :=
    element_move_handle_aspect (sample_element (Point.mk 0 0) 10 10)
      HANDLE_RESIZE_SE (Point.mk 8 3) 2 in
  drag_size (sample_element (Point.mk 0 0) 10 10) HANDLE_RESIZE_SE
    (Point.mk 8 3) = (8, 3) /\
  8 <= Element.width elem' /\ 3 <= Element.height elem'.
Proof.
  split; [reflexivity|].
  destruct (element_move_handle_aspect_covers_drag
              (sample_element (Point.mk 0 0) 10 10) HANDLE_RESIZE_SE
              (Point.mk 8 3) 2) as (Hw & Hh & _).
  - reflexivity.
  - lra.
  - cbn. lra.
  - cbn. lra.
  - split; [exact Hw|exact Hh].
Defined.

(** ** Further properties of handles and connection points *)

(** X10. [element_update_handles] rewrites the id and the position of the eight
    slots and nothing else: the pose, the base object and the [type],
    [connect_type] and [connected_to] of every slot stay, and a second run
    changes nothing. *)
Theorem element_update_handles_frame (elem : Element) :
  Element_wf elem ->
  let elem' := element_update_handles elem in
  Element_wf elem' /\
  pose elem' = pose elem /\
  Element.object elem' = Element.object elem /\
  Handle.type <$> Element.resize_handles elem' =
    Handle.type <$> Element.resize_handles elem /\
  Handle.connect_type <$> Element.resize_handles elem' =
    Handle.connect_type <$> Element.resize_handles elem /\
  Handle.connected_to <$> Element.resize_handles elem' =
    Handle.connected_to <$> Element.resize_handles elem /\
  element_update_handles elem' = elem'.
Proof.
  intros Hwf elem'; subst elem'.
  destruct elem as [obj hs [cx cy] w h].
  unfold Element_wf in *; cbn in Hwf.
  do 8 (destruct hs as [|? hs]; [discriminate Hwf|]).
  destruct hs; [clear Hwf|discriminate Hwf].
  cbv -[Qplus Qdiv]. repeat apply conj; reflexivity.
Qed.

Lemma element_update_handles_frame_witness :
  let elem :=
    Element.mk sample_object
      (replicate 7 sample_handle ++
       [Handle.mk HANDLE_CUSTOM1 (Point.mk 0 0) 1 2 (Some 5%nat)])
      (Point.mk 1 2) 4 6 in
  Element.resize_handles (element_update_handles elem) !! 7%nat =
    Some (Handle.mk HANDLE_RESIZE_SE (Point.mk (1 + 4) (2 + 6)) 1 2
            (Some 5%nat)) /\
  element_update_handles (element_update_handles elem) =
    element_update_handles elem.
Proof.
  intros elem. split; [reflexivity|].
  apply (element_update_handles_frame elem). reflexivity.
Defined.

(** X11. With fewer than nine connection points declared on the object,
    [element_update_connections_rectangle] does not return: its assertion
    stops the program. *)
Theorem element_update_connections_rectangle_asserts (elem : Element)
    (cps : list ConnectionPoint) :
  (DiaObject.num_connections (Element.object elem) < 9)%Z ->
  element_update_connections_rectangle elem cps = None.
Proof.
  intros Hn. apply Z.leb_gt in Hn.
  unfold element_update_connections_rectangle.
  repeat match goal with
  | |- context [set_cp ?i ?f ?l ≫= _] =>
      destruct (set_cp i f l); cbn [mbind option_bind]; [|reflexivity]
  end.
  rewrite Hn. reflexivity.
Qed.

Lemma element_update_connections_rectangle_asserts_witness :
  element_update_connections_rectangle
    (Element.mk (DiaObject.mk (Point.mk 0 0) (DiaRectangle.mk 0 0 0 0) 8)
       (replicate 8 sample_handle) (Point.mk 0 0) 1 1)
    (replicate 9 (sample_cp (Point.mk 0 0) 0)) = None.
Proof.
  apply element_update_connections_rectangle_asserts. cbn. lia.
Defined.








Lemma update_directions_body_idempotent (center : Point)
    (cp : ConnectionPoint) :
  update_directions_body center (update_directions_body center cp) =
  update_directions_body center cp.
Proof. now rewrite !update_directions_body_spec. Qed.

(** X13. [element_update_connections_directions] writes directions only, and a
    second run changes nothing: the masks depend on the positions and the
    flags, not on the masks that were there. *)
Theorem element_update_connections_directions_idempotent (elem : Element)
    (cps : list ConnectionPoint) :
  (Z.to_nat (DiaObject.num_connections (Element.object elem)) <= length cps)%nat ->
  exists cps1 : list ConnectionPoint,
    element_update_connections_directions elem cps = Some cps1 /\
    ConnectionPoint.pos <$> cps1 = ConnectionPoint.pos <$> cps /\
    ConnectionPoint.flags <$> cps1 = ConnectionPoint.flags <$> cps /\
    element_update_connections_directions elem cps1 = Some cps1.
Proof.
  intros Hlen. unfold element_update_connections_directions.
  set (center := Point.mk _ _).
  set (n := Z.to_nat _) in *.
  destruct (update_directions_loop_spec center n 0 cps)
    as (cps1 & Hrun & Hlen1 & Hlook); [lia|].
  destruct (update_directions_loop_spec center n 0 cps1)
    as (cps2 & Hrun2 & Hlen2 & Hlook2); [lia|].
  exists cps1. split; [exact Hrun|].
  split; [|split].
  - apply list_eq. intros j. rewrite !list_lookup_fmap, Hlook.
    case_decide; [|reflexivity].
    destruct (cps !! j) as [cp|]; [|reflexivity].
    cbn. now rewrite update_directions_body_spec.
  - apply list_eq. intros j. rewrite !list_lookup_fmap, Hlook.
    case_decide; [|reflexivity].
    destruct (cps !! j) as [cp|]; [|reflexivity].
    cbn. now rewrite update_directions_body_spec.
  - rewrite Hrun2. f_equal. apply list_eq. intros j.
    rewrite Hlook2, Hlook. case_decide; [|reflexivity].
    destruct (cps !! j) as [cp|]; [|reflexivity].
    cbn. now rewrite update_directions_body_idempotent.
Qed.

Lemma element_update_connections_directions_idempotent_witness :
  let elem := sample_element (Point.mk 0 0) 4 2 in
  let cps :=
    ((fun p => ConnectionPoint.mk p DIR_ALL 0)
       <$> rectangle_points (Point.mk 0 0) 4 2)
    ++ [sample_cp (Point.mk 2 1) CP_FLAGS_MAIN] in
  exists cps1 : list ConnectionPoint,
    element_update_connections_directions elem cps = Some cps1 /\
    element_update_connections_directions elem cps1 = Some cps1.
Proof.
  intros elem cps.
  destruct (element_update_connections_directions_idempotent elem cps)
    as (cps1 & Hrun & _ & _ & Hagain).
  - cbn. lia.
  - exists cps1. split; [exact Hrun|exact Hagain].
Defined.

(** ** Further properties of the undo record *)

(** X14. A swap touches one element only, the one of the record, and of that
    element only [object.position], [width] and [height]: every other
    element of the store, and the corner, the handles, the bounding box and
    the connection count of the record's element, stay; no element appears
    or disappears; the record keeps its element. *)
Theorem element_change_swap_frame (ec ec' : DiaElementObjectChange)
    (obj : option nat) (heap heap' : gmap nat Element) :
  _element_change_swap ec obj heap = Some (ec', heap') ->
  DiaElementObjectChange.element ec' = DiaElementObjectChange.element ec /\
  dom heap' = dom heap /\
  (forall addr : nat,
     addr <> DiaElementObjectChange.element ec ->
     heap' !! addr = heap !! addr) /\
  (forall (addr : nat) (elem' : Element),
     heap' !! addr = Some elem' ->
     exists elem : Element,
       heap !! addr = Some elem /\
       Element.corner elem' = Element.corner elem /\
       Element.resize_handles elem' = Element.resize_handles elem /\
       DiaObject.bounding_box (Element.object elem') =
         DiaObject.bounding_box (Element.object elem) /\
       DiaObject.num_connections (Element.object elem') =
         DiaObject.num_connections (Element.object elem)).
Proof.
  unfold _element_change_swap.
  destruct (negb _).
  { intros [= <- <-]. repeat apply conj; try reflexivity.
    intros addr elem' Hlook. exists elem'. repeat apply conj; auto. }
  destruct (heap !! DiaElementObjectChange.element ec) as [elem|] eqn:Hlook;
    [|discriminate].
  cbn [mbind option_bind]. intros [= <- <-]. repeat apply conj.
  - reflexivity.
  - rewrite dom_insert_L. apply (elem_of_dom_2 (D := gset nat)) in Hlook.
    apply subseteq_union_1_L, singleton_subseteq_l. exact Hlook.
  - intros addr Hne. now rewrite lookup_insert_ne by congruence.
  - intros addr elem' Hlook'.
    destruct (decide (addr = DiaElementObjectChange.element ec)) as [->|Hne].
    + rewrite lookup_insert_eq in Hlook'. injection Hlook' as <-.
      exists elem. split; [exact Hlook|]. repeat apply conj; reflexivity.
    + rewrite lookup_insert_ne in Hlook' by congruence.
      exists elem'. repeat apply conj; auto.
Qed.

Lemma element_change_swap_frame_witness :
  let heap : gmap nat Element :=
    {[ 0%nat := sample_element (Point.mk 5 5) 7 8;
       1%nat := sample_element (Point.mk 9 9) 1 1 ]} in
  let ec := DiaElementObjectChange.mk 0 (Point.mk 1 1) 3 4 in
  exists (ec' : DiaElementObjectChange) (heap' : gmap nat Element),
    _element_change_swap ec None heap = Some (ec', heap') /\
    heap' !! 1%nat = Some (sample_element (Point.mk 9 9) 1 1) /\
    Element.corner <$> heap' !! 0%nat = Some (Point.mk 5 5).
Proof.
  intros heap ec.
  destruct (_element_change_swap ec None heap) as [[ec' heap']|] eqn:Hrun;
    [|discriminate Hrun].
  exists ec', heap'. split; [reflexivity|].
  destruct (element_change_swap_frame ec ec' None heap heap' Hrun)
    as (_ & _ & Hother & _).
  split.
  - rewrite Hother by discriminate. reflexivity.
  - injection Hrun as <- <-. reflexivity.
Defined.

(** X15. [apply] and [revert] do nothing when they are handed an object that is
    not the one of the record, whatever the record and the store hold. *)
Theorem element_change_rejects_other_object (ec : DiaElementObjectChange)
    (addr : nat) (heap : gmap nat Element) :
  addr <> DiaElementObjectChange.element ec ->
  dia_element_object_change_apply ec (Some addr) heap = Some (ec, heap) /\
  dia_element_object_change_revert ec (Some addr) heap = Some (ec, heap).
Proof.
  intros Hne.
  unfold dia_element_object_change_apply, dia_element_object_change_revert.
  split; apply element_change_swap_rejects; exact Hne.
Qed.

Lemma element_change_rejects_other_object_witness :
  let heap : gmap nat Element :=
    {[ 0%nat := sample_element (Point.mk 5 5) 7 8;
       1%nat := sample_element (Point.mk 9 9) 1 1 ]} in
  let ec := DiaElementObjectChange.mk 0 (Point.mk 1 1) 3 4 in
  dia_element_object_change_revert ec (Some 1%nat) heap = Some (ec, heap).
Proof.
  intros heap ec.
  apply (element_change_rejects_other_object ec 1%nat heap). discriminate.
Defined.

(** X16. A record reverted right after [element_change_new] made it changes
    nothing, provided the object's position is the element's corner, as the
    objects keep it. *)
Theorem element_change_new_then_revert (heap : gmap nat Element)
    (addr : nat) (elem : Element) (corner : option Point) (width height : Q) :
  heap !! addr = Some elem ->
  DiaObject.position (Element.object elem) = Element.corner elem ->
  exists ec : DiaObjectChange,
    element_change_new corner width height addr heap = Some ec /\
    dia_element_object_change_revert ec None heap = Some (ec, heap) /\
    dia_element_object_change_revert ec (Some addr) heap = Some (ec, heap).
Proof.
  intros Hlook Hpos.
  unfold element_change_new, dia_element_object_change_revert.
  rewrite Hlook. cbn [mbind option_bind]. eexists. split; [reflexivity|].
  rewrite !(element_change_swap_passes _ _ _ elem) by (auto; cbn; auto).
  destruct elem as [[opos bb n] hs c w h]; cbn in *. subst opos.
  rewrite (insert_id _ _ _ Hlook). split; reflexivity.
Qed.

Lemma element_change_new_then_revert_witness :
  let elem :=
    Element.mk (DiaObject.mk (Point.mk 5 5) (DiaRectangle.mk 0 0 0 0) 9)
      (replicate 8 sample_handle) (Point.mk 5 5) 7 8 in
  exists ec : DiaObjectChange,
    element_change_new None 0 0 3 {[ 3%nat := elem ]} = Some ec /\
    dia_element_object_change_revert ec None {[ 3%nat := elem ]}
      = Some (ec, {[ 3%nat := elem ]}).
Proof.
  intros elem.
  destruct (element_change_new_then_revert {[ 3%nat := elem ]} 3 elem None 0 0)
    as (ec & Hnew & Hrevert & _).
  - reflexivity.
  - reflexivity.
  - exists ec. split; [exact Hnew|exact Hrevert].
Defined.

(** X17. Undo of the sizes works: whatever width and height the element has
    taken since [element_change_new] made the record, [revert] gives it
    back the width and the height of that moment, puts the corner of that
    moment into [object.position], and leaves the sizes it replaced in the
    record. *)
Theorem element_change_revert_restores_size (heap heap1 : gmap nat Element)
    (addr : nat) (elem0 elem1 : Element) (corner : option Point)
    (width height : Q) (ec : DiaObjectChange) :
  heap !! addr = Some elem0 ->
  element_change_new corner width height addr heap = Some ec ->
  heap1 !! addr = Some elem1 ->
  exists (ec' : DiaObjectChange) (heap2 : gmap nat Element) (elem2 : Element),
    dia_element_object_change_revert ec None heap1 = Some (ec', heap2) /\
    heap2 !! addr = Some elem2 /\
    Element.width elem2 = Element.width elem0 /\
    Element.height elem2 = Element.height elem0 /\
    DiaObject.position (Element.object elem2) = Element.corner elem0 /\
    DiaElementObjectChange.width ec' = Element.width elem1 /\
    DiaElementObjectChange.height ec' = Element.height elem1.
Proof.
  intros Hlook Hnew Hlook1.
  unfold element_change_new in Hnew. rewrite Hlook in Hnew.
  cbn [mbind option_bind] in Hnew. injection Hnew as <-.
  unfold dia_element_object_change_revert.
  rewrite (element_change_swap_passes _ _ _ elem1) by (auto; cbn; auto).
  cbn [DiaElementObjectChange.element DiaElementObjectChange.corner
       DiaElementObjectChange.width DiaElementObjectChange.height].
  eexists _, _, _. split; [reflexivity|].
  split; [apply lookup_insert_eq|].
  repeat apply conj; reflexivity.
Qed.

Lemma element_change_revert_restores_size_witness :
  let elem0 := sample_element (Point.mk 1 1) 3 4 in
  let elem1 := sample_element (Point.mk 5 5) 7 8 in
  exists (ec' : DiaObjectChange) (heap2 : gmap nat Element) (elem2 : Element),
    dia_element_object_change_revert
      (DiaElementObjectChange.mk 0 (Point.mk 1 1) 3 4) None
      {[ 0%nat := elem1 ]} = Some (ec', heap2) /\
    heap2 !! 0%nat = Some elem2 /\
    Element.width elem2 = 3 /\ Element.height elem2 = 4.
Proof.
  intros elem0 elem1.
  destruct (element_change_revert_restores_size
              {[ 0%nat := elem0 ]} {[ 0%nat := elem1 ]} 0 elem0 elem1
              None 0 0 (DiaElementObjectChange.mk 0 (Point.mk 1 1) 3 4))
    as (ec' & heap2 & elem2 & Hrun & Hlook & Hw & Hh & _).
  - reflexivity.
  - reflexivity.
  - reflexivity.
  - exists ec', heap2, elem2. repeat apply conj; assumption.
Defined.

(** ** Further properties of loading, the polygon and the bounding box *)

(** X18. [element_load] overwrites the pose: the element that it leaves does not
    depend on the corner, the width or the height that the element had. *)
Theorem element_load_overwrites_pose `{ObjectIO} (obj : DiaObject)
    (hs : list Handle) (c c' : Point) (w h w' h' : Q)
    (obj_node : ObjectNode) (ctx : DiaContext) :
  element_load (Element.mk obj hs c w h) obj_node ctx =
  element_load (Element.mk obj hs c' w' h') obj_node ctx.
Proof.
  unfold element_load. cbn.
  destruct (object_load obj obj_node ctx) as [obj1 ctx1]. cbn.
  repeat
    (match goal with
     | |- context [object_find_attribute ?n ?s] =>
         destruct (object_find_attribute n s)
     | |- context [data_point ?d ?pt ?c] => destruct (data_point d pt c)
     | |- context [data_real ?d ?c] => destruct (data_real d c)
     end; cbn);
  reflexivity.
Qed.



(** X20. When no size is negative and the external expansion encloses the
    rectangle that it is given, the bounding box that
    [element_update_boundingbox] stores contains every resize handle; the
    pose and the handles are not written by it. *)
Theorem element_update_boundingbox_contains_handles {ElementBBExtras : Type}
    (rectangle_bbox : DiaRectangle -> ElementBBExtras -> DiaRectangle)
    (extra_spacing : ElementBBExtras) (elem : Element) :
  Element_wf elem ->
  0 <= Element.width elem -> 0 <= Element.height elem ->
  (forall r : DiaRectangle, encloses (rectangle_bbox r extra_spacing) r) ->
  let boxed := element_update_boundingbox rectangle_bbox extra_spacing elem in
  pose boxed = pose elem /\
  Element.resize_handles boxed = Element.resize_handles elem /\
  forall hd : Handle,
    hd ∈ Element.resize_handles (element_update_handles boxed) ->
    inside (DiaObject.bounding_box (Element.object boxed)) (Handle.pos hd).
Proof.
  intros Hwf Hw Hh Hbox boxed; subst boxed.
  destruct elem as [[opos bb n] hs [cx cy] w h].
  unfold Element_wf in Hwf; cbn in Hwf, Hw, Hh.
  do 8 (destruct hs as [|? hs]; [discriminate Hwf|]).
  destruct hs; [clear Hwf|discriminate Hwf].
  split; [reflexivity|]. split; [reflexivity|].
  cbv -[Qplus Qdiv Qle Qlt elem_of].
  match goal with
  | |- context [rectangle_bbox ?r extra_spacing] =>
      pose proof (Hbox r) as Hr; set (box := rectangle_bbox r extra_spacing) in *
  end.
  clearbody box. clear Hbox.
  destruct box as [bl bt br bbm]. unfold encloses in Hr.
  cbn [DiaRectangle.left DiaRectangle.top DiaRectangle.right
       DiaRectangle.bottom] in Hr.
  destruct Hr as (Hl & Hrt & Ht & Hb).
  intros hd Hin.
  repeat (apply elem_of_cons in Hin as [->|Hin]);
    [..|apply elem_of_nil in Hin; contradiction].
  all: halves; repeat apply conj; lra.
Qed.

Lemma element_update_boundingbox_contains_handles_witness :
  let boxed :=
    element_update_boundingbox sample_rectangle_bbox (1 # 10)
      (sample_element (Point.mk 1 2) 4 6) in
  DiaObject.bounding_box (Element.object boxed) =
    DiaRectangle.mk (1 - (1 # 10)) (2 - (1 # 10)) (1 + 4 + (1 # 10))
      (2 + 6 + (1 # 10)) /\
  forall hd : Handle,
    hd ∈ Element.resize_handles (element_update_handles boxed) ->
    inside (DiaObject.bounding_box (Element.object boxed)) (Handle.pos hd).
Proof.
  intros boxed. split; [reflexivity|].
  apply (element_update_boundingbox_contains_handles sample_rectangle_bbox
           (1 # 10) (sample_element (Point.mk 1 2) 4 6)).
  - reflexivity.
  - cbn. lra.
  - cbn. lra.
  - intros [l t r b]. unfold encloses, sample_rectangle_bbox.
    cbn [DiaRectangle.left DiaRectangle.top DiaRectangle.right
         DiaRectangle.bottom].
    repeat apply conj; lra.
Defined.
